(** * ElectricEye: the CloudHSM auditor

    A shallow embedding of [eeauditor/auditors/aws/AWS_CloudHSM_Auditor.py]:
    the cached [describe_clusters] lookup and the three registered checks
    [cloudhsm_cluster_degradation_check], [cloudhsm_hsm_degradation_check]
    and [cloudhsm_cluster_backup_check].

    The checks are Python generators that talk to two outside parties, the
    boto3 client [cloudhsm] and the wall clock, and that share one mutable
    [cache] dict.  They are embedded in a small generator monad: a run
    threads the cache and the history of outside events, collects the
    findings it yields in order, and ends either normally or with the
    exception that escaped. *)

From stdpp Require Import base tactics option list strings pretty gmap.

(** ** Provider data *)

(** One entry of [cluster["Hsms"]]. *)
Module Hsm.
Record t := mk { HsmId : string; State : string }.
End Hsm.

(** One entry of [describe_clusters()["Clusters"]]. *)
Module Cluster.
Record t := mk { ClusterId : string; State : string; Hsms : list Hsm.t }.
End Cluster.

(** One entry of [describe_backups(...)["Backups"]]. *)
Module Backup.
Record t := mk { ClusterId : string; BackupState : string }.
End Backup.

(** The response dicts.  A response always holds its list under the key the
    code reads, so as a Python dict it is never empty. *)
Record ClustersResponse := { Clusters : list Cluster.t }.
Record BackupsResponse := { Backups : list Backup.t }.

(** ** Findings *)

(** One entry of [finding["Resources"]]; [Details] is the nested dict
    [{kind: {key: value}}], kept as association lists. *)
Module Resource.
Record t := mk {
  Type_ : string;
  Id : string;
  Partition : string;
  Region : string;
  Details : list (string * list (string * string))
}.
End Resource.

(** The finding dict.  The one-key inner dicts ([Severity], [Workflow], ...)
    are flattened: [Severity_Label] is [finding["Severity"]["Label"]]. *)
Module Finding.
Record t := mk {
  SchemaVersion : string;
  Id : string;
  ProductArn : string;
  GeneratorId : string;
  AwsAccountId : string;
  Types : list string;
  FirstObservedAt : string;
  CreatedAt : string;
  UpdatedAt : string;
  Severity_Label : string;
  Confidence : Z;
  Title : string;
  Description : string;
  Remediation_Recommendation_Text : string;
  Remediation_Recommendation_Url : string;
  ProductFields_Product_Name : string;
  Resources : list Resource.t;
  Compliance_Status : string;
  Compliance_RelatedRequirements : list string;
  Workflow_Status : string;
  RecordState : string
}.
End Finding.

(** ** The outside world *)

(** What can escape a check: whatever the boto3 client raised, or the
    [KeyError] of a failed [cache[key]]. *)
Inductive Exception :=
| ProviderError (code : string)
| KeyError (key : string).

(** Every interaction with the outside is recorded, oldest first, with the
    answer that came back. *)
Inductive Event :=
| EvDescribeClusters (answer : Exception + ClustersResponse)
| EvDescribeBackups (clusterIds : list string) (answer : Exception + BackupsResponse)
| EvNow (iso : string).

(** The provider and the clock answer from the history so far: they may
    change their answer from one call to the next, and fail at any call. *)
Record World := {
  cloudhsm_describe_clusters : list Event -> Exception + ClustersResponse;
  cloudhsm_describe_backups : list Event -> list string -> Exception + BackupsResponse;
  datetime_now_isoformat : list Event -> string
}.

(** The state a run threads: the shared [cache] dict and the history. *)
Record St := { cache : gmap string ClustersResponse; trace : list Event }.

(** An audit pass starts with an empty cache. *)
Definition new_pass : St := {| cache := ∅; trace := [] |}.

(** ** The generator monad *)

(** The outcome of consuming a generator to its end: the findings yielded,
    in order, then either the value it returned or the exception raised. *)
Record Run (A : Type) := MkRun {
  yielded : list Finding.t;
  value : Exception + A;
  final : St
}.
Arguments MkRun {A} _ _ _.
Arguments yielded {A} _.
Arguments value {A} _.
Arguments final {A} _.

Definition Gen (A : Type) : Type := St -> Run A.

Definition gen_ret {A} (a : A) : Gen A := fun st => MkRun [] (inr a) st.

Definition gen_bind {A B} (k : A -> Gen B) (m : Gen A) : Gen B := fun st =>
  let r := m st in
  match value r with
  | inl e => MkRun (yielded r) (inl e) (final r)
  | inr a => let r' := k a (final r) in
             MkRun (yielded r ++ yielded r') (value r') (final r')
  end.

#[global] Instance Gen_ret : MRet Gen := @gen_ret.
#[global] Instance Gen_bind : MBind Gen := @gen_bind.

Definition raise {A} (e : Exception) : Gen A := fun st => MkRun [] (inl e) st.

Definition yield (finding : Finding.t) : Gen unit := fun st => MkRun [finding] (inr tt) st.

(** [for x in xs: body(x)] *)
Fixpoint for_each {A} (xs : list A) (body : A -> Gen unit) : Gen unit :=
  match xs with
  | [] => mret tt
  | x :: xs' => body x ;; for_each xs' body
  end.

Definition record (ev : Event) (st : St) : St :=
  {| cache := cache st; trace := trace st ++ [ev] |}.

Section Auditor.

Variable world : World.

(** [cloudhsm.describe_clusters()] *)
Definition call_describe_clusters : Gen ClustersResponse := fun st =>
  let answer := cloudhsm_describe_clusters world (trace st) in
  MkRun [] answer (record (EvDescribeClusters answer) st).

(** [cloudhsm.describe_backups(Filters={'clusterIds': clusterIds})] *)
Definition call_describe_backups (clusterIds : list string) : Gen BackupsResponse := fun st =>
  let answer := cloudhsm_describe_backups world (trace st) clusterIds in
  MkRun [] answer (record (EvDescribeBackups clusterIds answer) st).

(** [datetime.datetime.now(datetime.timezone.utc).isoformat()] *)
Definition utcnow_isoformat : Gen string := fun st =>
  let iso := datetime_now_isoformat world (trace st) in
  MkRun [] (inr iso) (record (EvNow iso) st).

(** [cache.get(key)] *)
Definition cache_get (key : string) : Gen (option ClustersResponse) := fun st =>
  MkRun [] (inr (cache st !! key)) st.

(** [cache[key] = response] *)
Definition cache_setitem (key : string) (response : ClustersResponse) : Gen unit := fun st =>
  MkRun [] (inr tt) {| cache := <[key := response]> (cache st); trace := trace st |}.

(** [cache[key]] *)
Definition cache_getitem (key : string) : Gen ClustersResponse := fun st =>
  match cache st !! key with
  | Some response => MkRun [] (inr response) st
  | None => raise (KeyError key) st
  end.

(** [if response:] holds exactly when [cache.get] found an entry: [None] is
    false, and a stored response is a non-empty dict, which is true. *)
Definition describe_clusters : Gen ClustersResponse :=
  response ← cache_get "describe_clusters";
  match response with
  | Some stored => mret stored
  | None =>
      fetched ← call_describe_clusters;
      cache_setitem "describe_clusters" fetched;;
      cache_getitem "describe_clusters"
  end.

(** The [Compliance.RelatedRequirements] list, written out identically in
    each of the six finding literals of the file. *)
Definition related_requirements : list string :=
  [ "NIST CSF DE.AE-2";
    "NIST CSF DE.AE-3";
    "NIST CSF DE.AE-5";
    "NIST CSF DE.CM-1";
    "NIST CSF DE.DP-2";
    "NIST SP 800-53 AC-2";
    "NIST SP 800-53 AU-6";
    "NIST SP 800-53 AU-12";
    "NIST SP 800-53 IR-5";
    "NIST SP 800-53 IR-6";
    "AICPA TSC CC4.1";
    "AICPA TSC CC5.1";
    "ISO 27001:2013 A.10.1.2";
    "ISO 27001:2013 A.12.4.1" ].

(** *** [CloudHsm.1] CloudHsm clusters should not be degraded *)

Definition cluster_degradation_passing
    (awsAccountId awsRegion awsPartition iso8601Time ClusterId : string) : Finding.t :=
  {| Finding.SchemaVersion := "2018-10-08";
     Finding.Id := ClusterId +:+ "/cloudhsm-cluster-degradation-check";
     Finding.ProductArn :=
       "arn:" +:+ awsPartition +:+ ":securityhub:" +:+ awsRegion +:+ ":" +:+ awsAccountId
       +:+ ":product/" +:+ awsAccountId +:+ "/default";
     Finding.GeneratorId := ClusterId;
     Finding.AwsAccountId := awsAccountId;
     Finding.Types := ["Software and Configuration Checks/AWS Security Best Practices"];
     Finding.FirstObservedAt := iso8601Time;
     Finding.CreatedAt := iso8601Time;
     Finding.UpdatedAt := iso8601Time;
     Finding.Severity_Label := "INFORMATIONAL";
     Finding.Confidence := 99;
     Finding.Title := "[CloudHsm.1] CloudHsm clusters should not be in a degraded state";
     Finding.Description := "CloudHSM cluster " +:+ ClusterId +:+ " is not in a degraded state";
     Finding.Remediation_Recommendation_Text :=
       "For more information on HSM Clusters refer to the AWS CloudHsm User Guide on managing cloudhsm clusters";
     Finding.Remediation_Recommendation_Url :=
       "https://docs.aws.amazon.com/cloudhsm/latest/userguide/manage-clusters.html";
     Finding.ProductFields_Product_Name := "ElectricEye";
     Finding.Resources :=
       [ {| Resource.Type_ := "AwsCloudHsmCluster";
            Resource.Id := ClusterId;
            Resource.Partition := awsPartition;
            Resource.Region := awsRegion;
            Resource.Details := [("AwsCloudHsmCluster", [("ClusterId", ClusterId)])] |} ];
     Finding.Compliance_Status := "PASSED";
     Finding.Compliance_RelatedRequirements := related_requirements;
     Finding.Workflow_Status := "RESOLVED";
     Finding.RecordState := "ARCHIVED" |}.

Definition cluster_degradation_failing
    (awsAccountId awsRegion awsPartition iso8601Time ClusterId : string) : Finding.t :=
  {| Finding.SchemaVersion := "2018-10-08";
     Finding.Id := ClusterId +:+ "/cloudhsm-cluster-degradation-check";
     Finding.ProductArn :=
       "arn:" +:+ awsPartition +:+ ":securityhub:" +:+ awsRegion +:+ ":" +:+ awsAccountId
       +:+ ":product/" +:+ awsAccountId +:+ "/default";
     Finding.GeneratorId := ClusterId;
     Finding.AwsAccountId := awsAccountId;
     Finding.Types := ["Software and Configuration Checks/AWS Security Best Practices"];
     Finding.FirstObservedAt := iso8601Time;
     Finding.CreatedAt := iso8601Time;
     Finding.UpdatedAt := iso8601Time;
     Finding.Severity_Label := "HIGH";
     Finding.Confidence := 99;
     Finding.Title := "[CloudHsm.1] CloudHsm clusters should not be in a degraded state";
     Finding.Description := "CloudHSM cluster " +:+ ClusterId +:+ " is in a degraded state";
     Finding.Remediation_Recommendation_Text :=
       "For more information on HSM Clusters refer to the AWS CloudHsm User Guide on managing cloudhsm clusters";
     Finding.Remediation_Recommendation_Url :=
       "https://docs.aws.amazon.com/cloudhsm/latest/userguide/manage-clusters.html";
     Finding.ProductFields_Product_Name := "ElectricEye";
     Finding.Resources :=
       [ {| Resource.Type_ := "AwsCloudHsmCluster";
            Resource.Id := ClusterId;
            Resource.Partition := awsPartition;
            Resource.Region := awsRegion;
            Resource.Details := [("AwsCloudHsmCluster", [("ClusterId", ClusterId)])] |} ];
     Finding.Compliance_Status := "FAILED";
     Finding.Compliance_RelatedRequirements := related_requirements;
     Finding.Workflow_Status := "NEW";
     Finding.RecordState := "ACTIVE" |}.

(** The body of [for clstr in hsm_clusters["Clusters"]]. *)
Definition cluster_degradation_body
    (awsAccountId awsRegion awsPartition iso8601Time : string) (clstr : Cluster.t) : Gen unit :=
  let ClusterId := Cluster.ClusterId clstr in
  if decide (Cluster.State clstr ≠ "DEGRADED") then
    yield (cluster_degradation_passing awsAccountId awsRegion awsPartition iso8601Time ClusterId)
  else
    yield (cluster_degradation_failing awsAccountId awsRegion awsPartition iso8601Time ClusterId).

Definition cloudhsm_cluster_degradation_check
    (awsAccountId awsRegion awsPartition : string) : Gen unit :=
  hsm_clusters ← describe_clusters;
  iso8601Time ← utcnow_isoformat;
  for_each (Clusters hsm_clusters)
    (cluster_degradation_body awsAccountId awsRegion awsPartition iso8601Time).

(** *** [CloudHsm.2] CloudHsm HSMs should not be degraded *)

Definition hsm_degradation_passing
    (awsAccountId awsRegion awsPartition iso8601Time HsmId : string) : Finding.t :=
  {| Finding.SchemaVersion := "2018-10-08";
     Finding.Id := HsmId +:+ "/cloudhsm-cluster-degradation-check";
     Finding.ProductArn :=
       "arn:" +:+ awsPartition +:+ ":securityhub:" +:+ awsRegion +:+ ":" +:+ awsAccountId
       +:+ ":product/" +:+ awsAccountId +:+ "/default";
     Finding.GeneratorId := HsmId;
     Finding.AwsAccountId := awsAccountId;
     Finding.Types := ["Software and Configuration Checks/AWS Security Best Practices"];
     Finding.FirstObservedAt := iso8601Time;
     Finding.CreatedAt := iso8601Time;
     Finding.UpdatedAt := iso8601Time;
     Finding.Severity_Label := "INFORMATIONAL";
     Finding.Confidence := 99;
     Finding.Title := "[CloudHsm.2] CloudHsm HSMs should not be in a degraded state";
     Finding.Description := "CloudHSM HSM " +:+ HsmId +:+ " is not in a degraded state";
     Finding.Remediation_Recommendation_Text :=
       "For more information on HSM Clusters refer to the AWS CloudHsm User Guide on managing Hsms";
     Finding.Remediation_Recommendation_Url :=
       "https://docs.aws.amazon.com/cloudhsm/latest/userguide/introduction.html";
     Finding.ProductFields_Product_Name := "ElectricEye";
     Finding.Resources :=
       [ {| Resource.Type_ := "AwsCloudHsmHsm";
            Resource.Id := HsmId;
            Resource.Partition := awsPartition;
            Resource.Region := awsRegion;
            Resource.Details := [("AwsCloudHsmHsm", [("HsmId", HsmId)])] |} ];
     Finding.Compliance_Status := "PASSED";
     Finding.Compliance_RelatedRequirements := related_requirements;
     Finding.Workflow_Status := "RESOLVED";
     Finding.RecordState := "ARCHIVED" |}.

Definition hsm_degradation_failing
    (awsAccountId awsRegion awsPartition iso8601Time HsmId : string) : Finding.t :=
  {| Finding.SchemaVersion := "2018-10-08";
     Finding.Id := HsmId +:+ "/cloudhsm-cluster-degradation-check";
     Finding.ProductArn :=
       "arn:" +:+ awsPartition +:+ ":securityhub:" +:+ awsRegion +:+ ":" +:+ awsAccountId
       +:+ ":product/" +:+ awsAccountId +:+ "/default";
     Finding.GeneratorId := HsmId;
     Finding.AwsAccountId := awsAccountId;
     Finding.Types := ["Software and Configuration Checks/AWS Security Best Practices"];
     Finding.FirstObservedAt := iso8601Time;
     Finding.CreatedAt := iso8601Time;
     Finding.UpdatedAt := iso8601Time;
     Finding.Severity_Label := "HIGH";
     Finding.Confidence := 99;
     Finding.Title := "[CloudHsm.2] CloudHsm HSMs should not be in a degraded state";
     Finding.Description := "CloudHSM HSM " +:+ HsmId +:+ " is in a degraded state";
     Finding.Remediation_Recommendation_Text :=
       "For more information on HSM Clusters refer to the AWS CloudHsm User Guide on managing Hsms";
     Finding.Remediation_Recommendation_Url :=
       "https://docs.aws.amazon.com/cloudhsm/latest/userguide/introduction.html";
     Finding.ProductFields_Product_Name := "ElectricEye";
     Finding.Resources :=
       [ {| Resource.Type_ := "AwsCloudHsmHsm";
            Resource.Id := HsmId;
            Resource.Partition := awsPartition;
            Resource.Region := awsRegion;
            Resource.Details := [("AwsCloudHsmHsm", [("HsmId", HsmId)])] |} ];
     Finding.Compliance_Status := "FAILED";
     Finding.Compliance_RelatedRequirements := related_requirements;
     Finding.Workflow_Status := "NEW";
     Finding.RecordState := "ACTIVE" |}.

(** The body of [for hsm in clstr['Hsms']]. *)
Definition hsm_degradation_body
    (awsAccountId awsRegion awsPartition iso8601Time : string) (hsm : Hsm.t) : Gen unit :=
  let HsmId := Hsm.HsmId hsm in
  if decide (Hsm.State hsm ≠ "DEGRADED") then
    yield (hsm_degradation_passing awsAccountId awsRegion awsPartition iso8601Time HsmId)
  else
    yield (hsm_degradation_failing awsAccountId awsRegion awsPartition iso8601Time HsmId).

Definition cloudhsm_hsm_degradation_check
    (awsAccountId awsRegion awsPartition : string) : Gen unit :=
  hsm_clusters ← describe_clusters;
  iso8601Time ← utcnow_isoformat;
  for_each (Clusters hsm_clusters) (fun clstr =>
    for_each (Cluster.Hsms clstr)
      (hsm_degradation_body awsAccountId awsRegion awsPartition iso8601Time)).

(** *** [CloudHsm.3] CloudHsm clusters should have at least 1 backup in a READY state *)

Definition cluster_backup_passing
    (awsAccountId awsRegion awsPartition iso8601Time ClusterId : string) : Finding.t :=
  {| Finding.SchemaVersion := "2018-10-08";
     Finding.Id := ClusterId +:+ "/cloudhsm-cluster-backup-check";
     Finding.ProductArn :=
       "arn:" +:+ awsPartition +:+ ":securityhub:" +:+ awsRegion +:+ ":" +:+ awsAccountId
       +:+ ":product/" +:+ awsAccountId +:+ "/default";
     Finding.GeneratorId := ClusterId;
     Finding.AwsAccountId := awsAccountId;
     Finding.Types := ["Software and Configuration Checks/AWS Security Best Practices"];
     Finding.FirstObservedAt := iso8601Time;
     Finding.CreatedAt := iso8601Time;
     Finding.UpdatedAt := iso8601Time;
     Finding.Severity_Label := "INFORMATIONAL";
     Finding.Confidence := 99;
     Finding.Title := "[CloudHsm.3] CloudHsm clusters should have at least 1 backup in a READY state";
     Finding.Description :=
       "CloudHSM cluster " +:+ ClusterId +:+ " has at least 1 backup in a READY state";
     Finding.Remediation_Recommendation_Text :=
       "For more information on HSM Clusters refer to the AWS CloudHsm User Guide on managing Backups";
     Finding.Remediation_Recommendation_Url :=
       "https://docs.aws.amazon.com/cloudhsm/latest/userguide/backups.html";
     Finding.ProductFields_Product_Name := "ElectricEye";
     Finding.Resources :=
       [ {| Resource.Type_ := "AwsCloudHsmCluster";
            Resource.Id := ClusterId;
            Resource.Partition := awsPartition;
            Resource.Region := awsRegion;
            Resource.Details := [("AwsCloudHsmCluster", [("ClusterId", ClusterId)])] |} ];
     Finding.Compliance_Status := "PASSED";
     Finding.Compliance_RelatedRequirements := related_requirements;
     Finding.Workflow_Status := "RESOLVED";
     Finding.RecordState := "ARCHIVED" |}.

Definition cluster_backup_failing
    (awsAccountId awsRegion awsPartition iso8601Time ClusterId : string) : Finding.t :=
  {| Finding.SchemaVersion := "2018-10-08";
     Finding.Id := ClusterId +:+ "/cloudhsm-cluster-backup-check";
     Finding.ProductArn :=
       "arn:" +:+ awsPartition +:+ ":securityhub:" +:+ awsRegion +:+ ":" +:+ awsAccountId
       +:+ ":product/" +:+ awsAccountId +:+ "/default";
     Finding.GeneratorId := ClusterId;
     Finding.AwsAccountId := awsAccountId;
     Finding.Types := ["Software and Configuration Checks/AWS Security Best Practices"];
     Finding.FirstObservedAt := iso8601Time;
     Finding.CreatedAt := iso8601Time;
     Finding.UpdatedAt := iso8601Time;
     Finding.Severity_Label := "HIGH";
     Finding.Confidence := 99;
     Finding.Title := "[CloudHsm.3] CloudHsm clusters should have at least 1 backup in a READY state";
     Finding.Description :=
       "CloudHSM cluster " +:+ ClusterId +:+ " does not have at least 1 backup in a READY state";
     Finding.Remediation_Recommendation_Text :=
       "For more information on HSM Clusters refer to the AWS CloudHsm User Guide on managing Backups";
     Finding.Remediation_Recommendation_Url :=
       "https://docs.aws.amazon.com/cloudhsm/latest/userguide/backups.html";
     Finding.ProductFields_Product_Name := "ElectricEye";
     Finding.Resources :=
       [ {| Resource.Type_ := "AwsCloudHsmCluster";
            Resource.Id := ClusterId;
            Resource.Partition := awsPartition;
            Resource.Region := awsRegion;
            Resource.Details := [("AwsCloudHsmCluster", [("ClusterId", ClusterId)])] |} ];
     Finding.Compliance_Status := "FAILED";
     Finding.Compliance_RelatedRequirements := related_requirements;
     Finding.Workflow_Status := "NEW";
     Finding.RecordState := "ACTIVE" |}.

(** The body of [for clstr in hsm_clusters["Clusters"]]. *)
Definition cluster_backup_body
    (awsAccountId awsRegion awsPartition iso8601Time : string) (clstr : Cluster.t) : Gen unit :=
  let ClusterId := Cluster.ClusterId clstr in
  backups ← call_describe_backups [ClusterId];
  let activeBackups :=
    filter (fun x => Backup.BackupState x = "READY") (Backups backups) in
  if decide (0 < length activeBackups)%nat then
    yield (cluster_backup_passing awsAccountId awsRegion awsPartition iso8601Time ClusterId)
  else
    yield (cluster_backup_failing awsAccountId awsRegion awsPartition iso8601Time ClusterId).

Definition cloudhsm_cluster_backup_check
    (awsAccountId awsRegion awsPartition : string) : Gen unit :=
  hsm_clusters ← describe_clusters;
  iso8601Time ← utcnow_isoformat;
  for_each (Clusters hsm_clusters)
    (cluster_backup_body awsAccountId awsRegion awsPartition iso8601Time).

End Auditor.

(** The three checks the file registers under the service tag "cloudhsm",
    in the order of their [@registry.register_check] decorators. *)
Inductive Check := ClusterDegradation | HsmDegradation | ClusterBackup.

Definition registry : list Check := [ClusterDegradation; HsmDegradation; ClusterBackup].

(** Calling a registered check with [(cache, awsAccountId, awsRegion,
    awsPartition)] and consuming the generator to its end. *)
Definition run_check (world : World) (check : Check)
    (awsAccountId awsRegion awsPartition : string) : Gen unit :=
  match check with
  | ClusterDegradation =>
      cloudhsm_cluster_degradation_check world awsAccountId awsRegion awsPartition
  | HsmDegradation =>
      cloudhsm_hsm_degradation_check world awsAccountId awsRegion awsPartition
  | ClusterBackup =>
      cloudhsm_cluster_backup_check world awsAccountId awsRegion awsPartition
  end.

(** Modelled from the spec: the driver is not part of this file.  It calls
    the checks of a pass one after the other with one shared cache and
    consumes each generator; this one goes on with the next check when a
    check raised.  A driver that stops at the first exception runs a prefix
    of the same sequence. *)
Definition audit_pass (world : World) (awsAccountId awsRegion awsPartition : string)
    (checks : list Check) (st : St) : St :=
  foldl (fun st check => final (run_check world check awsAccountId awsRegion awsPartition st))
        st checks.

(** * Vocabulary of the statements *)

(** ** The frame of an invocation *)

(** The reading of the clock a check takes right after its lookup. *)
Definition stamp (world : World) (st : St) : string :=
  datetime_now_isoformat world (trace (final (describe_clusters world st))).

(** The state in which the loop of a check starts. *)
Definition loop_start (world : World) (st : St) : St :=
  record (EvNow (stamp world st)) (final (describe_clusters world st)).

(** ** The finding each rule builds for one resource *)

(** The finding Rule A builds for one cluster. *)
Definition cluster_degradation_finding
    (awsAccountId awsRegion awsPartition iso8601Time : string) (clstr : Cluster.t) : Finding.t :=
  if decide (Cluster.State clstr ≠ "DEGRADED") then
    cluster_degradation_passing awsAccountId awsRegion awsPartition iso8601Time
      (Cluster.ClusterId clstr)
  else
    cluster_degradation_failing awsAccountId awsRegion awsPartition iso8601Time
      (Cluster.ClusterId clstr).

(** The finding Rule B builds for one HSM. *)
Definition hsm_degradation_finding
    (awsAccountId awsRegion awsPartition iso8601Time : string) (hsm : Hsm.t) : Finding.t :=
  if decide (Hsm.State hsm ≠ "DEGRADED") then
    hsm_degradation_passing awsAccountId awsRegion awsPartition iso8601Time (Hsm.HsmId hsm)
  else
    hsm_degradation_failing awsAccountId awsRegion awsPartition iso8601Time (Hsm.HsmId hsm).

(** The finding Rule C builds for one cluster from the backups fetched for it. *)
Definition cluster_backup_finding
    (awsAccountId awsRegion awsPartition iso8601Time : string)
    (clstr : Cluster.t) (backups : BackupsResponse) : Finding.t :=
  if decide (0 < length (filter (fun x => Backup.BackupState x = "READY") (Backups backups)))%nat
  then
    cluster_backup_passing awsAccountId awsRegion awsPartition iso8601Time
      (Cluster.ClusterId clstr)
  else
    cluster_backup_failing awsAccountId awsRegion awsPartition iso8601Time
      (Cluster.ClusterId clstr).

(** The event of a [describe_backups] call for one cluster that succeeded. *)
Definition backups_fetched (clstr : Cluster.t) (backups : BackupsResponse) : Event :=
  EvDescribeBackups [Cluster.ClusterId clstr] (inr backups).

(** The rule of Rule C in the words of the specification: the cluster has
    at least one backup whose [BackupState] is READY. *)
Definition has_ready_backup (backups : BackupsResponse) : Prop :=
  ∃ x, x ∈ Backups backups ∧ Backup.BackupState x = "READY".

(** The slug each check appends to the resource id in [Id], as written in
    its two finding literals. *)
Definition rule_slug (check : Check) : string :=
  match check with
  | ClusterDegradation => "cloudhsm-cluster-degradation-check"
  | HsmDegradation => "cloudhsm-cluster-degradation-check"
  | ClusterBackup => "cloudhsm-cluster-backup-check"
  end.

(** ** Reading findings *)

(** [Severity.Label] in the words of the specification: INFORMATIONAL iff
    the check passed, else HIGH. *)
Definition severity_follows (passed : Prop) (finding : Finding.t) : Prop :=
  (Finding.Severity_Label finding = "INFORMATIONAL" ↔ passed)
  ∧ (¬ passed -> Finding.Severity_Label finding = "HIGH").

(** The two shapes a finding can have. *)
Definition passed_shape (finding : Finding.t) : Prop :=
  Finding.Compliance_Status finding = "PASSED"
  ∧ Finding.Workflow_Status finding = "RESOLVED"
  ∧ Finding.RecordState finding = "ARCHIVED".

Definition failed_shape (finding : Finding.t) : Prop :=
  Finding.Compliance_Status finding = "FAILED"
  ∧ Finding.Workflow_Status finding = "NEW"
  ∧ Finding.RecordState finding = "ACTIVE".

(** A finding with its three timestamp fields blanked. *)
Definition erase_timestamps (finding : Finding.t) : Finding.t :=
  {| Finding.SchemaVersion := Finding.SchemaVersion finding;
     Finding.Id := Finding.Id finding;
     Finding.ProductArn := Finding.ProductArn finding;
     Finding.GeneratorId := Finding.GeneratorId finding;
     Finding.AwsAccountId := Finding.AwsAccountId finding;
     Finding.Types := Finding.Types finding;
     Finding.FirstObservedAt := "";
     Finding.CreatedAt := "";
     Finding.UpdatedAt := "";
     Finding.Severity_Label := Finding.Severity_Label finding;
     Finding.Confidence := Finding.Confidence finding;
     Finding.Title := Finding.Title finding;
     Finding.Description := Finding.Description finding;
     Finding.Remediation_Recommendation_Text := Finding.Remediation_Recommendation_Text finding;
     Finding.Remediation_Recommendation_Url := Finding.Remediation_Recommendation_Url finding;
     Finding.ProductFields_Product_Name := Finding.ProductFields_Product_Name finding;
     Finding.Resources := Finding.Resources finding;
     Finding.Compliance_Status := Finding.Compliance_Status finding;
     Finding.Compliance_RelatedRequirements := Finding.Compliance_RelatedRequirements finding;
     Finding.Workflow_Status := Finding.Workflow_Status finding;
     Finding.RecordState := Finding.RecordState finding |}.

(** ** Reading histories *)

Definition is_describe_clusters_call (ev : Event) : bool :=
  match ev with
  | EvDescribeClusters _ => true
  | _ => false
  end.

Definition is_describe_clusters_answer (ev : Event) : bool :=
  match ev with
  | EvDescribeClusters (inr _) => true
  | _ => false
  end.

(** How many [describe_clusters] calls a history holds, and how many of
    them came back with a response. *)
Definition describe_clusters_calls (history : list Event) : nat :=
  length (filter (fun ev => is_describe_clusters_call ev) history).

Definition describe_clusters_answers (history : list Event) : nat :=
  length (filter (fun ev => is_describe_clusters_answer ev) history).

Arguments describe_clusters_calls : simpl never.
Arguments describe_clusters_answers : simpl never.

(** What holds of a pass at every point between two checks: either no call
    was answered yet and the cache has no entry, or exactly one call was
    answered, none was issued after it, and the cache holds its answer. *)
Definition pass_invariant (st : St) : Prop :=
  (cache st !! "describe_clusters" = None ∧ describe_clusters_answers (trace st) = 0)
  ∨ ∃ before snapshot after,
      trace st = before ++ EvDescribeClusters (inr snapshot) :: after
      ∧ describe_clusters_answers before = 0
      ∧ describe_clusters_calls after = 0
      ∧ cache st !! "describe_clusters" = Some snapshot.

(** The exception a recorded call came back with, if it failed. *)
Definition raised_by (ev : Event) : option Exception :=
  match ev with
  | EvDescribeClusters (inl e) => Some e
  | EvDescribeBackups _ (inl e) => Some e
  | _ => None
  end.

(** ** Worked inputs *)

(** The example of the specification: one healthy cluster [c1] with one
    degraded HSM [h1]; its backups are one pending and one ready. *)
Definition example_world : World :=
  {| cloudhsm_describe_clusters := fun _ =>
       inr {| Clusters := [Cluster.mk "c1" "ACTIVE" [Hsm.mk "h1" "DEGRADED"]] |};
     cloudhsm_describe_backups := fun _ _ =>
       inr {| Backups := [Backup.mk "c1" "PENDING"; Backup.mk "c1" "READY"] |};
     datetime_now_isoformat := fun history =>
       "2021-05-01T00:00:0" +:+ pretty (length history) +:+ "+00:00" |}.

Definition example_snapshot : ClustersResponse :=
  {| Clusters := [Cluster.mk "c1" "ACTIVE" [Hsm.mk "h1" "DEGRADED"]] |}.

(** One check run on the example from an empty cache. *)
Definition audit_example (check : Check) : Run unit :=
  run_check example_world check "111122223333" "us-east-1" "aws" new_pass.

(** A cluster with one HSM, under ids of the shape AWS hands out. *)
Definition one_hsm_world : World :=
  {| cloudhsm_describe_clusters := fun _ =>
       inr {| Clusters :=
                [Cluster.mk "cluster-igklspoyj5v" "ACTIVE"
                   [Hsm.mk "hsm-lgavqitns2a" "ACTIVE"]] |};
     cloudhsm_describe_backups := fun _ _ =>
       inr {| Backups := [Backup.mk "cluster-igklspoyj5v" "READY"] |};
     datetime_now_isoformat := fun _ => "2021-05-01T00:00:00+00:00" |}.

(** A provider that throttles the first call it ever gets. *)
Definition flaky_world : World :=
  {| cloudhsm_describe_clusters := fun history =>
       match history with
       | [] => inl (ProviderError "ThrottlingException")
       | _ => inr example_snapshot
       end;
     cloudhsm_describe_backups := fun _ _ =>
       inr {| Backups := [Backup.mk "c1" "READY"] |};
     datetime_now_isoformat := fun _ => "2021-05-01T00:00:00+00:00" |}.

(** Two clusters; the provider refuses to list the backups of the second. *)
Definition denied_world : World :=
  {| cloudhsm_describe_clusters := fun _ =>
       inr {| Clusters := [Cluster.mk "c1" "ACTIVE" []; Cluster.mk "c2" "ACTIVE" []] |};
     cloudhsm_describe_backups := fun _ clusterIds =>
       if decide (clusterIds = ["c1"]) then inr {| Backups := [Backup.mk "c1" "READY"] |}
       else inl (ProviderError "AccessDeniedException");
     datetime_now_isoformat := fun _ => "2021-05-01T00:00:00+00:00" |}.

(** ** The literals of a check *)

(** The finding literal of the passing branch of a check, and the one of
    its [else] branch. *)
Definition passing_literal (check : Check) : string -> string -> string -> string -> string -> Finding.t :=
  match check with
  | ClusterDegradation => cluster_degradation_passing
  | HsmDegradation => hsm_degradation_passing
  | ClusterBackup => cluster_backup_passing
  end.

Definition failing_literal (check : Check) : string -> string -> string -> string -> string -> Finding.t :=
  match check with
  | ClusterDegradation => cluster_degradation_failing
  | HsmDegradation => hsm_degradation_failing
  | ClusterBackup => cluster_backup_failing
  end.

(** The [Type] of the resource a check reports on, and the key under which
    [Details] repeats the resource id. *)
Definition resource_type (check : Check) : string :=
  match check with
  | ClusterDegradation => "AwsCloudHsmCluster"
  | HsmDegradation => "AwsCloudHsmHsm"
  | ClusterBackup => "AwsCloudHsmCluster"
  end.

Definition resource_key (check : Check) : string :=
  match check with
  | ClusterDegradation => "ClusterId"
  | HsmDegradation => "HsmId"
  | ClusterBackup => "ClusterId"
  end.

(** An account without any cluster. *)
Definition empty_world : World :=
  {| cloudhsm_describe_clusters := fun _ => inr {| Clusters := [] |};
     cloudhsm_describe_backups := fun _ _ => inl (ProviderError "AccessDeniedException");
     datetime_now_isoformat := fun _ => "2021-05-01T00:00:00+00:00" |}.

(** One cluster [c2] that has no backup at all. *)
Definition no_backup_world : World :=
  {| cloudhsm_describe_clusters := fun _ =>
       inr {| Clusters := [Cluster.mk "c2" "DEGRADED" [Hsm.mk "h2" "ACTIVE"]] |};
     cloudhsm_describe_backups := fun _ _ => inr {| Backups := [] |};
     datetime_now_isoformat := fun _ => "2021-05-01T00:00:00+00:00" |}.

(** The HSMs [h1] and [h2] once in one cluster and once in two. *)
Definition one_cluster_two_hsms : World :=
  {| cloudhsm_describe_clusters := fun _ =>
       inr {| Clusters :=
                [Cluster.mk "c1" "ACTIVE" [Hsm.mk "h1" "DEGRADED"; Hsm.mk "h2" "ACTIVE"]] |};
     cloudhsm_describe_backups := fun _ _ => inr {| Backups := [] |};
     datetime_now_isoformat := fun _ => "2021-05-01T00:00:00+00:00" |}.

Definition two_clusters_one_hsm_each : World :=
  {| cloudhsm_describe_clusters := fun _ =>
       inr {| Clusters :=
                [Cluster.mk "c1" "ACTIVE" [Hsm.mk "h1" "DEGRADED"];
                 Cluster.mk "c2" "DEGRADED" [];
                 Cluster.mk "c3" "ACTIVE" [Hsm.mk "h2" "ACTIVE"]] |};
     cloudhsm_describe_backups := fun _ _ => inr {| Backups := [] |};
     datetime_now_isoformat := fun _ => "2022-01-01T00:00:00+00:00" |}.

(** * Verification *)

(** ** What a run of each piece amounts to *)

Ltac gen_unfold :=
  unfold mbind, mret, Gen_bind, Gen_ret, gen_bind, gen_ret, yield, raise in *.

Lemma bind_run {A B} (m : Gen A) (k : A -> Gen B) st :
  (m ≫= k) st =
  match value (m st) with
  | inl e => MkRun (yielded (m st)) (inl e) (final (m st))
  | inr a => MkRun (yielded (m st) ++ yielded (k a (final (m st))))
                   (value (k a (final (m st)))) (final (k a (final (m st))))
  end.
Proof. reflexivity. Qed.

Lemma run_eta {A} (r : Run A) : MkRun (yielded r) (value r) (final r) = r.
Proof. by destruct r. Qed.

Lemma for_each_cons {A} (x : A) xs body st :
  for_each (x :: xs) body st =
  match value (body x st) with
  | inl e => MkRun (yielded (body x st)) (inl e) (final (body x st))
  | inr _ =>
      let rest := for_each xs body (final (body x st)) in
      MkRun (yielded (body x st) ++ yielded rest) (value rest) (final rest)
  end.
Proof. reflexivity. Qed.

(** A loop whose body only yields runs to its end and leaves the state alone. *)
Lemma for_each_yield {A} (f : A -> Finding.t) xs st :
  for_each xs (fun x => yield (f x)) st = MkRun (f <$> xs) (inr tt) st.
Proof.
  revert st; induction xs as [|x xs IH]; intros st; [done|].
  rewrite for_each_cons. cbn. by rewrite IH.
Qed.

Lemma for_each_ext {A} (body body' : A -> Gen unit) xs st :
  (∀ x st', body x st' = body' x st') ->
  for_each xs body st = for_each xs body' st.
Proof.
  intros Hext. revert st; induction xs as [|x xs IH]; intros st; [done|].
  rewrite !for_each_cons, Hext. destruct (value (body' x st)); [done|].
  cbn. by rewrite IH.
Qed.

(** Nested loops that only yield: the findings of the inner loops, in order. *)
Lemma for_each_nested_yield {A B} (inner : A -> list B) (f : B -> Finding.t) xs st :
  for_each xs (fun x => for_each (inner x) (fun y => yield (f y))) st =
  MkRun (concat ((fun x => f <$> inner x) <$> xs)) (inr tt) st.
Proof.
  revert st; induction xs as [|x xs IH]; intros st; [done|].
  rewrite for_each_cons, for_each_yield. cbn. by rewrite IH.
Qed.

Lemma Forall3_zip_with {A B C} (P : A -> B -> C -> Prop) (f : A -> B -> C) l k :
  length k = length l ->
  (∀ x y, P x y (f x y)) ->
  Forall3 P l k (zip_with f l k).
Proof.
  intros Hlen HP. revert k Hlen.
  induction l as [|x l IH]; intros [|y k] Hlen; cbn in *; try done; [constructor|].
  constructor; [apply HP | apply IH; lia].
Qed.

Lemma Forall2_zip_with_r {A B C} (P : B -> C -> Prop) (f : A -> B -> C) (l : list A) k :
  length k ≤ length l ->
  (∀ x y, P y (f x y)) ->
  Forall2 P k (zip_with f l k).
Proof.
  intros Hlen HP. revert k Hlen.
  induction l as [|x l IH]; intros [|y k] Hlen; cbn in *; try lia; try by constructor.
  constructor; [apply HP | apply IH; lia].
Qed.

Lemma concat_fmap_fmap {A B C} (inner : A -> list B) (f : B -> C) (xs : list A) :
  concat ((fun x => f <$> inner x) <$> xs) = f <$> concat (inner <$> xs).
Proof.
  induction xs as [|x xs IH]; [done|]. cbn. by rewrite fmap_app, IH.
Qed.

Section Runs.

Variable world : World.

(** *** The cached lookup *)

Lemma describe_clusters_hit st stored :
  cache st !! "describe_clusters" = Some stored ->
  describe_clusters world st = MkRun [] (inr stored) st.
Proof.
  intros Hhit. unfold describe_clusters, cache_get. gen_unfold. cbn. by rewrite Hhit.
Qed.

Lemma describe_clusters_miss st :
  cache st !! "describe_clusters" = None ->
  describe_clusters world st =
  let answer := cloudhsm_describe_clusters world (trace st) in
  match answer with
  | inl e => MkRun [] (inl e) (record (EvDescribeClusters answer) st)
  | inr fetched =>
      MkRun [] (inr fetched)
        {| cache := <["describe_clusters" := fetched]> (cache st);
           trace := trace st ++ [EvDescribeClusters answer] |}
  end.
Proof.
  intros Hmiss.
  unfold describe_clusters, cache_get, call_describe_clusters, cache_setitem, cache_getitem.
  gen_unfold. cbn. rewrite Hmiss. cbn.
  destruct (cloudhsm_describe_clusters world (trace st)) as [e|fetched]; cbn; [done|].
  by rewrite lookup_insert_eq.
Qed.

Lemma describe_clusters_yields_nothing st : yielded (describe_clusters world st) = [].
Proof.
  destruct (cache st !! "describe_clusters") as [stored|] eqn:Hget.
  - by rewrite (describe_clusters_hit _ _ Hget).
  - rewrite (describe_clusters_miss _ Hget). cbn.
    by destruct (cloudhsm_describe_clusters world (trace st)).
Qed.

(** After a successful lookup the snapshot is what the cache holds. *)
Lemma describe_clusters_stores st snapshot :
  value (describe_clusters world st) = inr snapshot ->
  cache (final (describe_clusters world st)) !! "describe_clusters" = Some snapshot.
Proof.
  destruct (cache st !! "describe_clusters") as [stored|] eqn:Hget.
  - rewrite (describe_clusters_hit _ _ Hget). cbn. congruence.
  - rewrite (describe_clusters_miss _ Hget). cbn.
    destruct (cloudhsm_describe_clusters world (trace st)); cbn; [done|].
    intros [= ->]. apply lookup_insert_eq.
Qed.

(** *** The common frame of the three checks: lookup, clock, loop *)

Lemma check_frame (loop : ClustersResponse -> string -> Gen unit) st :
  (hsm_clusters ← describe_clusters world;
   iso8601Time ← utcnow_isoformat world;
   loop hsm_clusters iso8601Time) st =
  match value (describe_clusters world st) with
  | inl e => MkRun [] (inl e) (final (describe_clusters world st))
  | inr snapshot => loop snapshot (stamp world st) (loop_start world st)
  end.
Proof.
  rewrite bind_run, describe_clusters_yields_nothing.
  destruct (value (describe_clusters world st)) as [e|snapshot]; [done|].
  cbn. rewrite bind_run. cbn. unfold stamp, loop_start. by rewrite run_eta.
Qed.

(** *** Rule A *)

Lemma cluster_degradation_body_yield acct region part iso clstr st :
  cluster_degradation_body acct region part iso clstr st =
  yield (cluster_degradation_finding acct region part iso clstr) st.
Proof.
  unfold cluster_degradation_body, cluster_degradation_finding. by case_decide.
Qed.

Lemma cluster_degradation_run acct region part st :
  cloudhsm_cluster_degradation_check world acct region part st =
  match value (describe_clusters world st) with
  | inl e => MkRun [] (inl e) (final (describe_clusters world st))
  | inr snapshot =>
      MkRun (cluster_degradation_finding acct region part (stamp world st) <$> Clusters snapshot)
            (inr tt) (loop_start world st)
  end.
Proof.
  unfold cloudhsm_cluster_degradation_check.
  rewrite (check_frame (fun hsm_clusters iso8601Time =>
    for_each (Clusters hsm_clusters) (cluster_degradation_body acct region part iso8601Time))).
  destruct (value (describe_clusters world st)) as [e|snapshot]; [done|].
  rewrite (for_each_ext _ (fun c => yield (cluster_degradation_finding acct region part (stamp world st) c)))
    by (intros; apply cluster_degradation_body_yield).
  apply for_each_yield.
Qed.

(** *** Rule B *)

Lemma hsm_degradation_body_yield acct region part iso hsm st :
  hsm_degradation_body acct region part iso hsm st =
  yield (hsm_degradation_finding acct region part iso hsm) st.
Proof.
  unfold hsm_degradation_body, hsm_degradation_finding. by case_decide.
Qed.

Lemma hsm_degradation_run acct region part st :
  cloudhsm_hsm_degradation_check world acct region part st =
  match value (describe_clusters world st) with
  | inl e => MkRun [] (inl e) (final (describe_clusters world st))
  | inr snapshot =>
      MkRun (concat ((fun clstr => hsm_degradation_finding acct region part (stamp world st)
                                     <$> Cluster.Hsms clstr) <$> Clusters snapshot))
            (inr tt) (loop_start world st)
  end.
Proof.
  unfold cloudhsm_hsm_degradation_check.
  rewrite (check_frame (fun hsm_clusters iso8601Time =>
    for_each (Clusters hsm_clusters) (fun clstr =>
      for_each (Cluster.Hsms clstr) (hsm_degradation_body acct region part iso8601Time)))).
  destruct (value (describe_clusters world st)) as [e|snapshot]; [done|].
  rewrite (for_each_ext _ (fun clstr => for_each (Cluster.Hsms clstr)
             (fun hsm => yield (hsm_degradation_finding acct region part (stamp world st) hsm)))).
  - apply for_each_nested_yield.
  - intros clstr st'. apply for_each_ext. intros; apply hsm_degradation_body_yield.
Qed.

(** *** Rule C *)

(** One iteration: one provider call filtered on the cluster's id, then one
    finding if the call succeeded and the exception otherwise. *)
Lemma cluster_backup_body_run acct region part iso clstr st :
  cluster_backup_body world acct region part iso clstr st =
  let answer := cloudhsm_describe_backups world (trace st) [Cluster.ClusterId clstr] in
  MkRun (match answer with
         | inl _ => []
         | inr backups => [cluster_backup_finding acct region part iso clstr backups]
         end)
        (match answer with inl e => inl e | inr _ => inr tt end)
        (record (EvDescribeBackups [Cluster.ClusterId clstr] answer) st).
Proof.
  unfold cluster_backup_body, cluster_backup_finding, call_describe_backups.
  rewrite bind_run. cbn.
  destruct (cloudhsm_describe_backups world (trace st) [Cluster.ClusterId clstr])
    as [e|backups]; cbn; [done|].
  by case_decide.
Qed.

(** The loop of Rule C: it fetches the backups of the clusters one after the
    other and stops at the first call that fails.  [fetched] lists the
    answers of the calls that succeeded. *)
Lemma cluster_backup_loop_run acct region part iso clusters st :
  let run := for_each clusters (cluster_backup_body world acct region part iso) st in
  ∃ fetched : list BackupsResponse,
    yielded run = zip_with (cluster_backup_finding acct region part iso) clusters fetched
    ∧ cache (final run) = cache st
    ∧ (∀ i clstr backups,
         clusters !! i = Some clstr -> fetched !! i = Some backups ->
         cloudhsm_describe_backups world
           (trace st ++ take i (zip_with backups_fetched clusters fetched))
           [Cluster.ClusterId clstr] = inr backups)
    ∧ match value run with
      | inr _ =>
          length fetched = length clusters
          ∧ trace (final run) = trace st ++ zip_with backups_fetched clusters fetched
      | inl e =>
          ∃ clstr,
            clusters !! length fetched = Some clstr
            ∧ trace (final run) =
                trace st ++ zip_with backups_fetched clusters fetched
                  ++ [EvDescribeBackups [Cluster.ClusterId clstr] (inl e)]
      end.
Proof.
  revert st; induction clusters as [|clstr clusters IH]; intros st run.
  { exists []. subst run; cbn. split_and!; try done.
    by rewrite app_nil_r. }
  subst run. rewrite for_each_cons, cluster_backup_body_run. cbn.
  destruct (cloudhsm_describe_backups world (trace st) [Cluster.ClusterId clstr])
    as [e|backups] eqn:Hanswer; cbn.
  { exists []. cbn. split_and!; try done. by exists clstr. }
  destruct (IH (record (EvDescribeBackups [Cluster.ClusterId clstr] (inr backups)) st))
    as (fetched & Hyield & Hcache & Hanswers & Hend).
  exists (backups :: fetched). cbn. split_and!.
  - by rewrite Hyield.
  - by rewrite Hcache.
  - intros [|i] clstr' backups' Hc Hf; cbn in *.
    + rewrite app_nil_r. congruence.
    + specialize (Hanswers i clstr' backups' Hc Hf). cbn in Hanswers.
      by rewrite <- app_assoc in Hanswers.
  - destruct (value (for_each clusters _ _)) as [e|[]].
    + destruct Hend as (clstr' & Hlookup & Htrace). exists clstr'. split; [done|].
      rewrite Htrace. cbn. by rewrite <- app_assoc.
    + destruct Hend as [Hlen Htrace]. split; [by rewrite Hlen|].
      rewrite Htrace. cbn. by rewrite <- app_assoc.
Qed.

Lemma active_backups_iff backups :
  (0 < length (filter (fun x => Backup.BackupState x = "READY") (Backups backups)))%nat
  ↔ has_ready_backup backups.
Proof.
  unfold has_ready_backup. split.
  - intros Hlen.
    destruct (filter _ (Backups backups)) as [|x active] eqn:Hfilter;
      [cbn in Hlen; lia|].
    exists x. apply and_comm, (list_elem_of_filter (fun x => Backup.BackupState x = "READY")).
    rewrite Hfilter. left.
  - intros (x & Hin & Hready).
    assert (x ∈ filter (fun x => Backup.BackupState x = "READY") (Backups backups)) as Hx
      by by apply list_elem_of_filter.
    destruct (filter _ (Backups backups)); [by apply not_elem_of_nil in Hx | cbn; lia].
Qed.

Lemma cluster_backup_finding_ready acct region part iso clstr backups :
  has_ready_backup backups ->
  cluster_backup_finding acct region part iso clstr backups =
  cluster_backup_passing acct region part iso (Cluster.ClusterId clstr).
Proof.
  intros Hready. unfold cluster_backup_finding.
  case_decide as Hlen; [done|]. by apply active_backups_iff in Hready.
Qed.

Lemma cluster_backup_finding_not_ready acct region part iso clstr backups :
  ¬ has_ready_backup backups ->
  cluster_backup_finding acct region part iso clstr backups =
  cluster_backup_failing acct region part iso (Cluster.ClusterId clstr).
Proof.
  intros Hnone. unfold cluster_backup_finding.
  case_decide as Hlen; [|done]. by apply active_backups_iff in Hlen.
Qed.

Lemma cluster_backup_run acct region part st :
  cloudhsm_cluster_backup_check world acct region part st =
  match value (describe_clusters world st) with
  | inl e => MkRun [] (inl e) (final (describe_clusters world st))
  | inr snapshot =>
      for_each (Clusters snapshot) (cluster_backup_body world acct region part (stamp world st))
        (loop_start world st)
  end.
Proof.
  unfold cloudhsm_cluster_backup_check.
  apply (check_frame (fun hsm_clusters iso8601Time =>
    for_each (Clusters hsm_clusters) (cluster_backup_body world acct region part iso8601Time))).
Qed.

End Runs.

(** ** The example of the specification *)

(** On the snapshot with the healthy cluster [c1] and its degraded HSM [h1],
    Rule A yields one PASSED finding for [c1], Rule B one FAILED finding for
    [h1], and Rule C, the cluster having a READY backup, one PASSED finding. *)
Example example_of_the_specification :
  (fun finding => (Finding.GeneratorId finding, Finding.Compliance_Status finding))
    <$> yielded (audit_example ClusterDegradation) = [("c1", "PASSED")]
  ∧ (fun finding => (Finding.GeneratorId finding, Finding.Compliance_Status finding))
      <$> yielded (audit_example HsmDegradation) = [("h1", "FAILED")]
  ∧ (fun finding => (Finding.GeneratorId finding, Finding.Compliance_Status finding))
      <$> yielded (audit_example ClusterBackup) = [("c1", "PASSED")].
Proof. vm_compute. by split_and!. Qed.

(** ** Rule A: one finding per cluster *)

(** C1. When the lookup of the cluster list succeeds, Rule A yields exactly
    one finding per cluster of the list, in order, each about its cluster:
    PASSED and INFORMATIONAL when the cluster's State is not DEGRADED, and
    FAILED, HIGH, NEW and ACTIVE when it is. *)
Theorem C1_cluster_degradation_one_finding_per_cluster
    world acct region part st snapshot :
  value (describe_clusters world st) = inr snapshot ->
  Forall2
    (fun clstr finding =>
       Finding.GeneratorId finding = Cluster.ClusterId clstr
       ∧ Resource.Id <$> Finding.Resources finding = [Cluster.ClusterId clstr]
       ∧ (Cluster.State clstr ≠ "DEGRADED" ->
            Finding.Compliance_Status finding = "PASSED"
            ∧ Finding.Severity_Label finding = "INFORMATIONAL")
       ∧ (Cluster.State clstr = "DEGRADED" ->
            Finding.Compliance_Status finding = "FAILED"
            ∧ Finding.Severity_Label finding = "HIGH"
            ∧ Finding.Workflow_Status finding = "NEW"
            ∧ Finding.RecordState finding = "ACTIVE"))
    (Clusters snapshot)
    (yielded (cloudhsm_cluster_degradation_check world acct region part st)).
Proof.
  intros Hlookup. rewrite cluster_degradation_run, Hlookup. cbn.
  apply Forall2_fmap_r, Forall_Forall2_diag, Forall_forall. intros clstr _.
  unfold compose, cluster_degradation_finding. case_decide; cbn; split_and!; done.
Qed.

Lemma C1_witness :
  Forall2
    (fun clstr finding =>
       Finding.GeneratorId finding = Cluster.ClusterId clstr
       ∧ Resource.Id <$> Finding.Resources finding = [Cluster.ClusterId clstr]
       ∧ (Cluster.State clstr ≠ "DEGRADED" ->
            Finding.Compliance_Status finding = "PASSED"
            ∧ Finding.Severity_Label finding = "INFORMATIONAL")
       ∧ (Cluster.State clstr = "DEGRADED" ->
            Finding.Compliance_Status finding = "FAILED"
            ∧ Finding.Severity_Label finding = "HIGH"
            ∧ Finding.Workflow_Status finding = "NEW"
            ∧ Finding.RecordState finding = "ACTIVE"))
    (Clusters example_snapshot)
    (yielded (cloudhsm_cluster_degradation_check example_world "111122223333" "us-east-1" "aws"
                new_pass)).
Proof.
  apply (C1_cluster_degradation_one_finding_per_cluster
           example_world "111122223333" "us-east-1" "aws" new_pass example_snapshot).
  vm_compute. reflexivity.
Defined.

(** ** Rule B: one finding per HSM *)

(** C2. When the lookup of the cluster list succeeds, Rule B yields, cluster
    by cluster, exactly one finding per HSM of the cluster, in order, so N
    findings for a cluster with N HSMs and none for a cluster without HSMs.
    Each finding is about its HSM, and whether it is PASSED or FAILED is
    decided by the State of that HSM alone. *)
Theorem C2_hsm_degradation_one_finding_per_hsm
    world acct region part st snapshot :
  value (describe_clusters world st) = inr snapshot ->
  ∃ per_cluster : list (list Finding.t),
    yielded (cloudhsm_hsm_degradation_check world acct region part st) = concat per_cluster
    ∧ Forall2
        (fun clstr findings =>
           length findings = length (Cluster.Hsms clstr)
           ∧ Forall2
               (fun hsm finding =>
                  Finding.GeneratorId finding = Hsm.HsmId hsm
                  ∧ Resource.Id <$> Finding.Resources finding = [Hsm.HsmId hsm]
                  ∧ (Hsm.State hsm ≠ "DEGRADED" ->
                       Finding.Compliance_Status finding = "PASSED")
                  ∧ (Hsm.State hsm = "DEGRADED" ->
                       Finding.Compliance_Status finding = "FAILED"))
               (Cluster.Hsms clstr) findings)
        (Clusters snapshot) per_cluster.
Proof.
  intros Hlookup. rewrite hsm_degradation_run, Hlookup. cbn.
  eexists. split; [reflexivity|].
  apply Forall2_fmap_r, Forall_Forall2_diag, Forall_forall. intros clstr _.
  unfold compose. split; [by rewrite length_fmap|].
  apply Forall2_fmap_r, Forall_Forall2_diag, Forall_forall. intros hsm _.
  unfold compose, hsm_degradation_finding. case_decide; cbn; split_and!; done.
Qed.

Lemma C2_witness :
  ∃ per_cluster : list (list Finding.t),
    yielded (cloudhsm_hsm_degradation_check example_world "111122223333" "us-east-1" "aws"
               new_pass) = concat per_cluster
    ∧ Forall2
        (fun clstr findings =>
           length findings = length (Cluster.Hsms clstr)
           ∧ Forall2
               (fun hsm finding =>
                  Finding.GeneratorId finding = Hsm.HsmId hsm
                  ∧ Resource.Id <$> Finding.Resources finding = [Hsm.HsmId hsm]
                  ∧ (Hsm.State hsm ≠ "DEGRADED" ->
                       Finding.Compliance_Status finding = "PASSED")
                  ∧ (Hsm.State hsm = "DEGRADED" ->
                       Finding.Compliance_Status finding = "FAILED"))
               (Cluster.Hsms clstr) findings)
        (Clusters example_snapshot) per_cluster.
Proof.
  apply (C2_hsm_degradation_one_finding_per_hsm
           example_world "111122223333" "us-east-1" "aws" new_pass example_snapshot).
  vm_compute. reflexivity.
Defined.

(** ** Rule C: one finding per cluster, from the backups fetched for it *)

(** C3. When the lookup of the cluster list succeeds and the check runs to
    its end, Rule C has, after reading the clock, issued exactly one
    [describe_backups] call per cluster, filtered on that cluster's id, and
    yielded exactly one finding per cluster, in order: FAILED when the list
    fetched for the cluster holds no READY backup (an empty list included),
    PASSED when it holds at least one, whatever else it holds. *)
Theorem C3_cluster_backup_one_finding_per_cluster
    world acct region part st snapshot :
  value (describe_clusters world st) = inr snapshot ->
  value (cloudhsm_cluster_backup_check world acct region part st) = inr tt ->
  ∃ fetched : list BackupsResponse,
    trace (final (cloudhsm_cluster_backup_check world acct region part st)) =
      trace (final (describe_clusters world st))
      ++ EvNow (datetime_now_isoformat world (trace (final (describe_clusters world st))))
      :: zip_with
           (fun clstr backups => EvDescribeBackups [Cluster.ClusterId clstr] (inr backups))
           (Clusters snapshot) fetched
    ∧ Forall3
        (fun clstr backups finding =>
           Finding.GeneratorId finding = Cluster.ClusterId clstr
           ∧ Resource.Id <$> Finding.Resources finding = [Cluster.ClusterId clstr]
           ∧ ((∀ x, x ∈ Backups backups -> Backup.BackupState x ≠ "READY") ->
                Finding.Compliance_Status finding = "FAILED")
           ∧ ((∃ x, x ∈ Backups backups ∧ Backup.BackupState x = "READY") ->
                Finding.Compliance_Status finding = "PASSED"))
        (Clusters snapshot) fetched
        (yielded (cloudhsm_cluster_backup_check world acct region part st)).
Proof.
  intros Hlookup. rewrite cluster_backup_run, Hlookup. intros Hdone.
  destruct (cluster_backup_loop_run world acct region part (stamp world st)
              (Clusters snapshot) (loop_start world st))
    as (fetched & Hyield & _ & _ & Hend).
  rewrite Hdone in Hend. destruct Hend as [Hlen Htrace].
  exists fetched. split.
  - rewrite Htrace. unfold loop_start, record, stamp. cbn. by rewrite <- app_assoc.
  - rewrite Hyield. apply Forall3_zip_with; [done|]. intros clstr backups.
    destruct (decide (0 < length (filter (fun x => Backup.BackupState x = "READY")
                                    (Backups backups)))%nat) as [Hready|Hnone].
    + apply active_backups_iff in Hready.
      rewrite (cluster_backup_finding_ready _ _ _ _ _ _ Hready). cbn.
      split_and!; try done. intros Hno. destruct Hready as (x & Hin & Hx).
      by destruct (Hno x Hin).
    + assert (¬ has_ready_backup backups) as Hnot
        by (by rewrite <- active_backups_iff).
      rewrite (cluster_backup_finding_not_ready _ _ _ _ _ _ Hnot). cbn.
      split_and!; done.
Qed.

Lemma C3_witness :
  ∃ fetched : list BackupsResponse,
    trace (final (cloudhsm_cluster_backup_check example_world "111122223333" "us-east-1" "aws"
                    new_pass)) =
      trace (final (describe_clusters example_world new_pass))
      ++ EvNow (datetime_now_isoformat example_world
                  (trace (final (describe_clusters example_world new_pass))))
      :: zip_with
           (fun clstr backups => EvDescribeBackups [Cluster.ClusterId clstr] (inr backups))
           (Clusters example_snapshot) fetched
    ∧ Forall3
        (fun clstr backups finding =>
           Finding.GeneratorId finding = Cluster.ClusterId clstr
           ∧ Resource.Id <$> Finding.Resources finding = [Cluster.ClusterId clstr]
           ∧ ((∀ x, x ∈ Backups backups -> Backup.BackupState x ≠ "READY") ->
                Finding.Compliance_Status finding = "FAILED")
           ∧ ((∃ x, x ∈ Backups backups ∧ Backup.BackupState x = "READY") ->
                Finding.Compliance_Status finding = "PASSED"))
        (Clusters example_snapshot) fetched
        (yielded (cloudhsm_cluster_backup_check example_world "111122223333" "us-east-1" "aws"
                    new_pass)).
Proof.
  apply (C3_cluster_backup_one_finding_per_cluster
           example_world "111122223333" "us-east-1" "aws" new_pass example_snapshot).
  - vm_compute. reflexivity.
  - vm_compute. reflexivity.
Defined.

(** ** Finding identity *)

(** Every finding's [Id] is the id of the evaluated resource, a slash and
    the slug of the check; it holds nothing that changes between runs. *)
Lemma finding_id_is_resource_id_and_slug world check acct region part st :
  Forall
    (fun finding =>
       Finding.Id finding = Finding.GeneratorId finding +:+ "/" +:+ rule_slug check
       ∧ Resource.Id <$> Finding.Resources finding = [Finding.GeneratorId finding])
    (yielded (run_check world check acct region part st)).
Proof.
  destruct check; cbn.
  - rewrite cluster_degradation_run.
    destruct (value (describe_clusters world st)); cbn; [constructor|].
    apply Forall_fmap, Forall_forall. intros clstr _.
    unfold compose, cluster_degradation_finding. by case_decide.
  - rewrite hsm_degradation_run.
    destruct (value (describe_clusters world st)); cbn; [constructor|].
    rewrite concat_fmap_fmap.
    apply Forall_fmap, Forall_forall. intros hsm _.
    unfold compose, hsm_degradation_finding. by case_decide.
  - rewrite cluster_backup_run.
    destruct (value (describe_clusters world st)) as [e|snapshot]; cbn; [constructor|].
    destruct (cluster_backup_loop_run world acct region part (stamp world st)
                (Clusters snapshot) (loop_start world st)) as (fetched & -> & _).
    generalize (Clusters snapshot) as clusters. intros clusters. revert fetched.
    induction clusters as [|clstr clusters IH]; intros [|backups fetched]; cbn;
      try constructor; [|apply IH].
    unfold cluster_backup_finding. by case_decide.
Qed.

(** C4. On a cluster with one HSM the three checks yield these ids: each is
    the resource id, a slash and a slug, but the HSM check of Rule B signs
    its finding with the slug of the cluster check of Rule A, so the two
    rules do not have distinct slugs. *)
Theorem C4_hsm_check_id_carries_cluster_check_slug :
  Finding.Id <$> yielded (run_check one_hsm_world ClusterDegradation
                            "111122223333" "us-east-1" "aws" new_pass)
    = ["cluster-igklspoyj5v/cloudhsm-cluster-degradation-check"]
  ∧ Finding.Id <$> yielded (run_check one_hsm_world HsmDegradation
                              "111122223333" "us-east-1" "aws" new_pass)
    = ["hsm-lgavqitns2a/cloudhsm-cluster-degradation-check"]
  ∧ Finding.Id <$> yielded (run_check one_hsm_world ClusterBackup
                              "111122223333" "us-east-1" "aws" new_pass)
    = ["cluster-igklspoyj5v/cloudhsm-cluster-backup-check"]
  ∧ rule_slug HsmDegradation = rule_slug ClusterDegradation.
Proof. vm_compute. by split_and!. Qed.

(** ** Severity and workflow state *)

Lemma severity_follows_passing (passed : Prop) finding :
  passed -> Finding.Severity_Label finding = "INFORMATIONAL" ->
  severity_follows passed finding.
Proof. intros Hp Hsev. split; [done|]. by intros []. Qed.

Lemma severity_follows_failing (passed : Prop) finding :
  ¬ passed -> Finding.Severity_Label finding = "HIGH" ->
  severity_follows passed finding.
Proof.
  intros Hp Hsev. split; [|done]. rewrite Hsev. split; [done|]. by intros ?%Hp.
Qed.

(** C5. In the findings of each of the three checks, matched with the
    resources they were built for, [Severity.Label] is INFORMATIONAL exactly
    when the rule holds of the resource and HIGH otherwise: for Rule A the
    cluster is not DEGRADED, for Rule B the HSM is not DEGRADED, for Rule C
    the backups fetched for the cluster hold a READY one.  For Rule C
    [fetched] lists the answers of all the [describe_backups] calls of the
    run that succeeded. *)
Theorem C5_severity_informational_iff_passed
    world acct region part st snapshot :
  value (describe_clusters world st) = inr snapshot ->
  Forall2 (fun clstr => severity_follows (Cluster.State clstr ≠ "DEGRADED"))
    (Clusters snapshot)
    (yielded (cloudhsm_cluster_degradation_check world acct region part st))
  ∧ Forall2 (fun hsm => severity_follows (Hsm.State hsm ≠ "DEGRADED"))
      (concat (Cluster.Hsms <$> Clusters snapshot))
      (yielded (cloudhsm_hsm_degradation_check world acct region part st))
  ∧ ∃ (fetched : list BackupsResponse) (tail : list Event),
      trace (final (cloudhsm_cluster_backup_check world acct region part st)) =
        trace (final (describe_clusters world st))
        ++ EvNow (datetime_now_isoformat world (trace (final (describe_clusters world st))))
        :: zip_with
             (fun clstr backups => EvDescribeBackups [Cluster.ClusterId clstr] (inr backups))
             (Clusters snapshot) fetched
        ++ tail
      ∧ Forall (fun ev => ∀ ids backups, ev ≠ EvDescribeBackups ids (inr backups)) tail
      ∧ Forall2 (fun backups => severity_follows (has_ready_backup backups))
          fetched
          (yielded (cloudhsm_cluster_backup_check world acct region part st)).
Proof.
  intros Hlookup. split_and!.
  - rewrite cluster_degradation_run, Hlookup. cbn.
    apply Forall2_fmap_r, Forall_Forall2_diag, Forall_forall. intros clstr _.
    unfold compose, cluster_degradation_finding. case_decide.
    + by apply severity_follows_passing.
    + apply severity_follows_failing; [tauto | done].
  - rewrite hsm_degradation_run, Hlookup. cbn. rewrite concat_fmap_fmap.
    apply Forall2_fmap_r, Forall_Forall2_diag, Forall_forall. intros hsm _.
    unfold compose, hsm_degradation_finding. case_decide.
    + by apply severity_follows_passing.
    + apply severity_follows_failing; [tauto | done].
  - rewrite cluster_backup_run, Hlookup.
    destruct (cluster_backup_loop_run world acct region part (stamp world st)
                (Clusters snapshot) (loop_start world st))
      as (fetched & Hyield & _ & _ & Hend).
    exists fetched.
    assert (length fetched ≤ length (Clusters snapshot)
            ∧ ∃ tail,
                trace (final (for_each (Clusters snapshot)
                                (cluster_backup_body world acct region part (stamp world st))
                                (loop_start world st))) =
                  trace (loop_start world st)
                  ++ zip_with backups_fetched (Clusters snapshot) fetched ++ tail
                ∧ Forall (fun ev => ∀ ids backups, ev ≠ EvDescribeBackups ids (inr backups)) tail)
      as (Hlen & tail & Htrace & Htail).
    { destruct (value (for_each _ _ _)) as [e|[]].
      - destruct Hend as (clstr & Hat & Htrace). split.
        + apply lookup_lt_Some in Hat. lia.
        + eexists. split; [exact Htrace|]. by repeat constructor.
      - destruct Hend as [Hlen Htrace]. split; [lia|].
        exists []. by rewrite app_nil_r. }
    exists tail. split_and!; [|done|].
    + rewrite Htrace. unfold loop_start, record, stamp. cbn. by rewrite <- app_assoc.
    + rewrite Hyield. apply Forall2_zip_with_r; [done|]. intros clstr backups.
      destruct (decide (0 < length (filter (fun x => Backup.BackupState x = "READY")
                                      (Backups backups)))%nat) as [Hready|Hnone].
      * apply active_backups_iff in Hready.
        rewrite (cluster_backup_finding_ready _ _ _ _ _ _ Hready).
        by apply severity_follows_passing.
      * assert (¬ has_ready_backup backups) as Hnot by (by rewrite <- active_backups_iff).
        rewrite (cluster_backup_finding_not_ready _ _ _ _ _ _ Hnot).
        by apply severity_follows_failing.
Qed.

Lemma C5_witness :
  Forall2 (fun clstr => severity_follows (Cluster.State clstr ≠ "DEGRADED"))
    (Clusters example_snapshot)
    (yielded (cloudhsm_cluster_degradation_check example_world "111122223333" "us-east-1" "aws"
                new_pass))
  ∧ Forall2 (fun hsm => severity_follows (Hsm.State hsm ≠ "DEGRADED"))
      (concat (Cluster.Hsms <$> Clusters example_snapshot))
      (yielded (cloudhsm_hsm_degradation_check example_world "111122223333" "us-east-1" "aws"
                  new_pass))
  ∧ ∃ (fetched : list BackupsResponse) (tail : list Event),
      trace (final (cloudhsm_cluster_backup_check example_world "111122223333" "us-east-1"
                      "aws" new_pass)) =
        trace (final (describe_clusters example_world new_pass))
        ++ EvNow (datetime_now_isoformat example_world
                    (trace (final (describe_clusters example_world new_pass))))
        :: zip_with
             (fun clstr backups => EvDescribeBackups [Cluster.ClusterId clstr] (inr backups))
             (Clusters example_snapshot) fetched
        ++ tail
      ∧ Forall (fun ev => ∀ ids backups, ev ≠ EvDescribeBackups ids (inr backups)) tail
      ∧ Forall2 (fun backups => severity_follows (has_ready_backup backups))
          fetched
          (yielded (cloudhsm_cluster_backup_check example_world "111122223333" "us-east-1"
                      "aws" new_pass)).
Proof.
  apply (C5_severity_informational_iff_passed
           example_world "111122223333" "us-east-1" "aws" new_pass example_snapshot).
  vm_compute. reflexivity.
Defined.

(** C6. Every finding any of the three checks yields, from any state and
    whatever the provider answers, carries one of exactly two combinations:
    RESOLVED with ARCHIVED in a PASSED finding, NEW with ACTIVE in a FAILED
    one. *)
Theorem C6_workflow_and_record_state_paired world check acct region part st :
  Forall (fun finding => passed_shape finding ∨ failed_shape finding)
    (yielded (run_check world check acct region part st)).
Proof.
  destruct check; cbn.
  - rewrite cluster_degradation_run.
    destruct (value (describe_clusters world st)); cbn; [constructor|].
    apply Forall_fmap, Forall_forall. intros clstr _.
    unfold compose, cluster_degradation_finding.
    case_decide; [left|right]; by split_and!.
  - rewrite hsm_degradation_run.
    destruct (value (describe_clusters world st)); cbn; [constructor|].
    rewrite concat_fmap_fmap.
    apply Forall_fmap, Forall_forall. intros hsm _.
    unfold compose, hsm_degradation_finding.
    case_decide; [left|right]; by split_and!.
  - rewrite cluster_backup_run.
    destruct (value (describe_clusters world st)) as [e|snapshot]; cbn; [constructor|].
    destruct (cluster_backup_loop_run world acct region part (stamp world st)
                (Clusters snapshot) (loop_start world st)) as (fetched & -> & _).
    generalize (Clusters snapshot) as clusters. intros clusters. revert fetched.
    induction clusters as [|clstr clusters IH]; intros [|backups fetched]; cbn;
      try constructor; [|apply IH].
    unfold cluster_backup_finding.
    case_decide; [left|right]; by split_and!.
Qed.

(** ** The cached lookup across a pass *)

Lemma describe_clusters_calls_app h1 h2 :
  describe_clusters_calls (h1 ++ h2) = describe_clusters_calls h1 + describe_clusters_calls h2.
Proof. unfold describe_clusters_calls. by rewrite filter_app, length_app. Qed.

Lemma describe_clusters_answers_app h1 h2 :
  describe_clusters_answers (h1 ++ h2) =
  describe_clusters_answers h1 + describe_clusters_answers h2.
Proof. unfold describe_clusters_answers. by rewrite filter_app, length_app. Qed.

Lemma describe_clusters_answers_le_calls h :
  describe_clusters_answers h ≤ describe_clusters_calls h.
Proof.
  unfold describe_clusters_answers, describe_clusters_calls.
  induction h as [|ev h IH]; [done|].
  rewrite !filter_cons. destruct ev as [[]| |]; cbn; repeat case_decide; cbn; try done; lia.
Qed.

Lemma quiet_no_calls h :
  Forall (fun ev => is_describe_clusters_call ev = false) h ->
  describe_clusters_calls h = 0 ∧ describe_clusters_answers h = 0.
Proof.
  unfold describe_clusters_calls, describe_clusters_answers.
  induction 1 as [|ev h Hev _ [IHc IHa]]; [done|].
  rewrite !filter_cons. destruct ev as [[]| |]; cbn in *; try done.
Qed.

Lemma backups_fetched_quiet clusters fetched :
  Forall (fun ev => is_describe_clusters_call ev = false)
    (zip_with backups_fetched clusters fetched).
Proof.
  revert fetched.
  induction clusters as [|clstr clusters IH]; intros [|backups fetched]; cbn;
    try constructor; [done | apply IH].
Qed.

(** What a check leaves behind: the cache as the lookup left it, and after
    the events of the lookup only clock readings and backup calls. *)
Lemma run_check_final world check acct region part st :
  cache (final (run_check world check acct region part st)) =
    cache (final (describe_clusters world st))
  ∧ ∃ loop_events,
      trace (final (run_check world check acct region part st)) =
        trace (final (describe_clusters world st)) ++ loop_events
      ∧ Forall (fun ev => is_describe_clusters_call ev = false) loop_events.
Proof.
  destruct check; cbn.
  - rewrite cluster_degradation_run.
    destruct (value (describe_clusters world st)); cbn.
    + split; [done|]. exists []. by rewrite app_nil_r.
    + split; [done|]. eexists. split; [done|]. by repeat constructor.
  - rewrite hsm_degradation_run.
    destruct (value (describe_clusters world st)); cbn.
    + split; [done|]. exists []. by rewrite app_nil_r.
    + split; [done|]. eexists. split; [done|]. by repeat constructor.
  - rewrite cluster_backup_run.
    destruct (value (describe_clusters world st)) as [e|snapshot]; cbn.
    { split; [done|]. exists []. by rewrite app_nil_r. }
    destruct (cluster_backup_loop_run world acct region part (stamp world st)
                (Clusters snapshot) (loop_start world st))
      as (fetched & _ & Hcache & _ & Hend).
    split; [done|].
    pose proof (backups_fetched_quiet (Clusters snapshot) fetched) as Hquiet.
    destruct (value (for_each _ _ _)) as [e|[]].
    + destruct Hend as (clstr & _ & ->). cbn. eexists. rewrite <- app_assoc.
      split; [done|]. constructor; [done|]. apply Forall_app. by repeat constructor.
    + destruct Hend as [_ ->]. cbn. eexists. rewrite <- app_assoc.
      split; [done|]. by constructor.
Qed.

Lemma run_check_invariant world check acct region part st :
  pass_invariant st -> pass_invariant (final (run_check world check acct region part st)).
Proof.
  destruct (run_check_final world check acct region part st)
    as (Hcache & loop_events & Htrace & Hquiet).
  apply quiet_no_calls in Hquiet as [Hcalls Hanswers].
  unfold pass_invariant. rewrite Hcache, Htrace.
  intros [[Hmiss Hnone] | (before & snapshot & after & Hsplit & Hbefore & Hafter & Hhit)].
  - rewrite (describe_clusters_miss _ _ Hmiss). cbn.
    destruct (cloudhsm_describe_clusters world (trace st)) as [e|fetched]; cbn.
    + left. split; [done|].
      rewrite !describe_clusters_answers_app, Hnone, Hanswers. done.
    + right. exists (trace st), fetched, loop_events.
      rewrite <- app_assoc. split_and!; try done. apply lookup_insert_eq.
  - rewrite (describe_clusters_hit _ _ _ Hhit). cbn.
    right. exists before, snapshot, (after ++ loop_events).
    rewrite Hsplit, <- app_assoc. split_and!; try done.
    rewrite describe_clusters_calls_app. lia.
Qed.

Lemma audit_pass_invariant world acct region part checks st :
  pass_invariant st -> pass_invariant (audit_pass world acct region part checks st).
Proof.
  revert st; induction checks as [|check checks IH]; intros st Hinv; [done|].
  cbn. by apply IH, run_check_invariant.
Qed.

Lemma pass_invariant_at_most_one st :
  pass_invariant st -> describe_clusters_answers (trace st) ≤ 1.
Proof.
  intros [[_ Hnone] | (before & snapshot & after & Hsplit & Hbefore & Hafter & _)]; [lia|].
  rewrite Hsplit, describe_clusters_answers_app, Hbefore.
  change (EvDescribeClusters (inr snapshot) :: after)
    with ([EvDescribeClusters (inr snapshot)] ++ after).
  rewrite describe_clusters_answers_app.
  pose proof (describe_clusters_answers_le_calls after) as Hle.
  change (describe_clusters_answers [EvDescribeClusters (inr snapshot)]) with 1.
  lia.
Qed.

Lemma calm_calls_are_answers h :
  Forall (fun ev => raised_by ev = None) h ->
  describe_clusters_calls h = describe_clusters_answers h.
Proof.
  unfold describe_clusters_answers, describe_clusters_calls.
  induction 1 as [|ev h Hev _ IH]; [done|].
  rewrite !filter_cons.
  destruct ev as [[]| |]; cbn in *; repeat case_decide; cbn; try done; lia.
Qed.

(** The [describe_clusters] calls of a pass over the three registered
    checks when the provider throttles the first call: the cluster check
    calls and fails, the HSM check finds the cache empty and calls again,
    the backup check reads the cache. *)
Example flaky_pass_history :
  filter (fun ev => is_describe_clusters_call ev)
    (trace (audit_pass flaky_world "111122223333" "us-east-1" "aws" registry new_pass))
  = [ EvDescribeClusters (inl (ProviderError "ThrottlingException"));
      EvDescribeClusters (inr example_snapshot) ].
Proof. vm_compute. reflexivity. Qed.

(** C7, as stated, fails.  With a provider whose first call fails, the three
    checks run in one pass on one cache issue [describe_clusters] twice: the
    failed call of the first check stores nothing, so the second check calls
    again. *)
Lemma C7_counterexample_flaky_provider :
  ¬ describe_clusters_calls
      (trace (audit_pass flaky_world "111122223333" "us-east-1" "aws" registry new_pass)) ≤ 1.
Proof. vm_compute. lia. Qed.

(** C7, amended. In a pass that starts with an empty cache, however many of
    the three checks run and in whatever order, at most one
    [describe_clusters] call comes back with a response and none is issued
    after it: once a response is stored, the cache holds that snapshot and a
    further lookup returns it and leaves the state, and so the history, as
    they are.  Calls that raised store nothing and may have come before. *)
Theorem C7_at_most_one_answered_describe_clusters world acct region part checks :
  let st := audit_pass world acct region part checks new_pass in
  describe_clusters_answers (trace st) ≤ 1
  ∧ ((cache st !! "describe_clusters" = None ∧ describe_clusters_answers (trace st) = 0)
     ∨ ∃ before snapshot after,
         trace st = before ++ EvDescribeClusters (inr snapshot) :: after
         ∧ describe_clusters_answers before = 0
         ∧ describe_clusters_calls after = 0
         ∧ cache st !! "describe_clusters" = Some snapshot
         ∧ describe_clusters world st = MkRun [] (inr snapshot) st).
Proof.
  intros st.
  assert (pass_invariant st) as Hinv.
  { apply audit_pass_invariant. by left. }
  split; [by apply pass_invariant_at_most_one|].
  destruct Hinv as [Hleft | (before & snapshot & after & Hsplit & Hbefore & Hafter & Hhit)].
  - by left.
  - right. exists before, snapshot, after. split_and!; try done.
    by apply describe_clusters_hit.
Qed.

(** X12. When no provider call of the pass raises, answered calls are all
    the calls there are, so [describe_clusters] is issued at most once in
    the pass, however many checks run and in whatever order. *)
Lemma at_most_one_call_when_none_raises world acct region part checks :
  Forall (fun ev => raised_by ev = None)
    (trace (audit_pass world acct region part checks new_pass)) ->
  describe_clusters_calls (trace (audit_pass world acct region part checks new_pass)) ≤ 1.
Proof.
  intros Hcalm.
  assert (pass_invariant (audit_pass world acct region part checks new_pass)) as Hinv.
  { apply audit_pass_invariant. by left. }
  apply pass_invariant_at_most_one in Hinv.
  by rewrite (calm_calls_are_answers _ Hcalm).
Qed.

(** ** The events of one invocation *)

(** After a lookup that succeeded, a check reads the clock once and then
    only calls [describe_backups]: the calls that succeeded, one per cluster
    in order, and last the call that failed if the check raised.  Only Rule
    C makes such calls. *)
Lemma run_check_events world check acct region part st snapshot :
  value (describe_clusters world st) = inr snapshot ->
  ∃ (fetched : list BackupsResponse) (tail : list Event),
    trace (final (run_check world check acct region part st)) =
      trace (final (describe_clusters world st))
      ++ EvNow (stamp world st)
      :: zip_with backups_fetched (Clusters snapshot) fetched ++ tail
    ∧ length (yielded (run_check world check acct region part st)) =
        match check with
        | ClusterDegradation => length (Clusters snapshot)
        | HsmDegradation => length (concat (Cluster.Hsms <$> Clusters snapshot))
        | ClusterBackup => length fetched
        end
    ∧ (check = ClusterBackup ->
         yielded (run_check world check acct region part st) =
           zip_with (cluster_backup_finding acct region part (stamp world st))
             (Clusters snapshot) fetched)
    ∧ match value (run_check world check acct region part st) with
      | inr _ => tail = []
      | inl e =>
          check = ClusterBackup
          ∧ ∃ clstr,
              Clusters snapshot !! length fetched = Some clstr
              ∧ tail = [EvDescribeBackups [Cluster.ClusterId clstr] (inl e)]
      end.
Proof.
  intros Hlookup. destruct check; cbn.
  - rewrite cluster_degradation_run, Hlookup. cbn. exists [], [].
    rewrite zip_with_nil_r, length_fmap. by split_and!.
  - rewrite hsm_degradation_run, Hlookup. cbn. exists [], [].
    rewrite zip_with_nil_r, concat_fmap_fmap, length_fmap. by split_and!.
  - rewrite cluster_backup_run, Hlookup.
    destruct (cluster_backup_loop_run world acct region part (stamp world st)
                (Clusters snapshot) (loop_start world st))
      as (fetched & Hyield & _ & _ & Hend).
    exists fetched.
    destruct (value (for_each _ _ _)) as [e|[]].
    + destruct Hend as (clstr & Hat & Htrace).
      exists [EvDescribeBackups [Cluster.ClusterId clstr] (inl e)].
      refine (conj _ (conj _ (conj _ (conj _ _)))); try done.
      * rewrite Htrace. unfold loop_start, record. cbn. by rewrite <- app_assoc.
      * rewrite Hyield, length_zip_with. apply lookup_lt_Some in Hat. lia.
      * by exists clstr.
    + destruct Hend as [Hlen Htrace]. exists [].
      refine (conj _ (conj _ (conj _ _))); try done.
      * rewrite Htrace. unfold loop_start, record. cbn. by rewrite <- app_assoc, app_nil_r.
      * rewrite Hyield, length_zip_with. lia.
Qed.

(** The events of the lookup: none on a hit, the one provider call on a miss. *)
Lemma describe_clusters_events world st :
  match value (describe_clusters world st) with
  | inl e =>
      trace (final (describe_clusters world st)) = trace st ++ [EvDescribeClusters (inl e)]
  | inr snapshot =>
      trace (final (describe_clusters world st)) = trace st ++ []
      ∨ trace (final (describe_clusters world st)) =
          trace st ++ [EvDescribeClusters (inr snapshot)]
  end.
Proof.
  destruct (cache st !! "describe_clusters") as [stored|] eqn:Hget.
  - rewrite (describe_clusters_hit _ _ _ Hget). cbn. left. by rewrite app_nil_r.
  - rewrite (describe_clusters_miss _ _ Hget). cbn.
    destruct (cloudhsm_describe_clusters world (trace st)); cbn; [done | by right].
Qed.

(** ** Timestamps *)

(** Every finding carries the stamp of its invocation in all three fields. *)
Lemma findings_carry_stamp world check acct region part st :
  Forall
    (fun finding =>
       Finding.FirstObservedAt finding = stamp world st
       ∧ Finding.CreatedAt finding = stamp world st
       ∧ Finding.UpdatedAt finding = stamp world st)
    (yielded (run_check world check acct region part st)).
Proof.
  destruct check; cbn.
  - rewrite cluster_degradation_run.
    destruct (value (describe_clusters world st)); cbn; [constructor|].
    apply Forall_fmap, Forall_forall. intros clstr _.
    unfold compose, cluster_degradation_finding. by case_decide.
  - rewrite hsm_degradation_run.
    destruct (value (describe_clusters world st)); cbn; [constructor|].
    rewrite concat_fmap_fmap.
    apply Forall_fmap, Forall_forall. intros hsm _.
    unfold compose, hsm_degradation_finding. by case_decide.
  - rewrite cluster_backup_run.
    destruct (value (describe_clusters world st)) as [e|snapshot]; cbn; [constructor|].
    destruct (cluster_backup_loop_run world acct region part (stamp world st)
                (Clusters snapshot) (loop_start world st)) as (fetched & -> & _).
    generalize (Clusters snapshot) as clusters. intros clusters. revert fetched.
    induction clusters as [|clstr clusters IH]; intros [|backups fetched]; cbn;
      try constructor; [|apply IH].
    unfold cluster_backup_finding. by case_decide.
Qed.

(** C10. In an invocation of any of the three checks whose lookup succeeded,
    the clock is read exactly once: the events of the invocation are those
    of the lookup (the [describe_clusters] call, if the cache had no entry),
    then the one reading, then the [describe_backups] calls of the loop.
    Every finding of the invocation carries that one reading in
    [FirstObservedAt], [CreatedAt] and [UpdatedAt] alike. *)
Theorem C10_one_timestamp_per_invocation world check acct region part st snapshot :
  value (describe_clusters world st) = inr snapshot ->
  ∃ lookup_events loop_events iso8601Time,
    trace (final (run_check world check acct region part st)) =
      trace st ++ lookup_events ++ EvNow iso8601Time :: loop_events
    ∧ iso8601Time = datetime_now_isoformat world (trace st ++ lookup_events)
    ∧ Forall (fun ev => ∃ answer, ev = EvDescribeClusters answer) lookup_events
    ∧ Forall (fun ev => ∃ clusterIds answer, ev = EvDescribeBackups clusterIds answer)
        loop_events
    ∧ Forall
        (fun finding =>
           Finding.FirstObservedAt finding = iso8601Time
           ∧ Finding.CreatedAt finding = iso8601Time
           ∧ Finding.UpdatedAt finding = iso8601Time)
        (yielded (run_check world check acct region part st)).
Proof.
  intros Hlookup.
  destruct (run_check_events world check acct region part st snapshot Hlookup)
    as (fetched & tail & Htrace & _ & _ & Hend).
  pose proof (findings_carry_stamp world check acct region part st) as Hstamp.
  pose proof (describe_clusters_events world st) as Hlookup_events.
  rewrite Hlookup in Hlookup_events.
  assert (∃ lookup_events,
            trace (final (describe_clusters world st)) = trace st ++ lookup_events
            ∧ Forall (fun ev => ∃ answer, ev = EvDescribeClusters answer) lookup_events)
    as (lookup_events & Hlookup_trace & Hcalls).
  { destruct Hlookup_events as [Hev|Hev]; eexists; (split; [exact Hev|]).
    - constructor.
    - repeat constructor. by eexists. }
  exists lookup_events, (zip_with backups_fetched (Clusters snapshot) fetched ++ tail),
    (stamp world st).
  split_and!; try done.
  - by rewrite Htrace, Hlookup_trace, <- app_assoc.
  - unfold stamp. by rewrite Hlookup_trace.
  - apply Forall_app. split.
    + generalize (Clusters snapshot) as clusters. intros clusters. clear. revert fetched.
      induction clusters as [|clstr clusters IH]; intros [|backups fetched]; cbn;
        try constructor; [by do 2 eexists | apply IH].
    + destruct (value (run_check _ _ _ _ _ _)) as [e|[]].
      * destruct Hend as (_ & clstr & _ & ->). repeat constructor. by do 2 eexists.
      * subst tail. constructor.
Qed.

Lemma C10_witness :
  ∃ lookup_events loop_events iso8601Time,
    trace (final (run_check example_world ClusterBackup "111122223333" "us-east-1" "aws"
                    new_pass)) =
      trace new_pass ++ lookup_events ++ EvNow iso8601Time :: loop_events
    ∧ iso8601Time = datetime_now_isoformat example_world (trace new_pass ++ lookup_events)
    ∧ Forall (fun ev => ∃ answer, ev = EvDescribeClusters answer) lookup_events
    ∧ Forall (fun ev => ∃ clusterIds answer, ev = EvDescribeBackups clusterIds answer)
        loop_events
    ∧ Forall
        (fun finding =>
           Finding.FirstObservedAt finding = iso8601Time
           ∧ Finding.CreatedAt finding = iso8601Time
           ∧ Finding.UpdatedAt finding = iso8601Time)
        (yielded (run_check example_world ClusterBackup "111122223333" "us-east-1" "aws"
                    new_pass)).
Proof.
  apply (C10_one_timestamp_per_invocation
           example_world ClusterBackup "111122223333" "us-east-1" "aws" new_pass
           example_snapshot).
  vm_compute. reflexivity.
Defined.

(** ** Provider failures *)

Lemma split_after_calm {A} (P : A -> Prop) calm before x after tail :
  Forall (fun y => ¬ P y) calm -> P x ->
  before ++ x :: after = calm ++ tail ->
  ∃ rest, before = calm ++ rest ∧ tail = rest ++ x :: after.
Proof.
  intros Hcalm Hx. revert before.
  induction Hcalm as [|c calm Hc _ IH]; intros before Heq.
  - by exists before.
  - destruct before as [|b before]; cbn in Heq; injection Heq as -> Heq.
    + done.
    + destruct (IH _ Heq) as (rest & -> & ->). by exists rest.
Qed.

Lemma Forall2_take_zip_with {A B C} (P : A -> C -> Prop) (f : A -> B -> C) (l : list A) k :
  length k ≤ length l ->
  (∀ x y, P x (f x y)) ->
  Forall2 P (take (length k) l) (zip_with f l k).
Proof.
  intros Hlen HP. revert k Hlen.
  induction l as [|x l IH]; intros [|y k] Hlen; cbn in *; try lia; try by constructor.
  constructor; [apply HP | apply IH; lia].
Qed.

Lemma backups_fetched_calm clusters fetched :
  Forall (fun ev => ¬ raised_by ev ≠ None) (zip_with backups_fetched clusters fetched).
Proof.
  revert fetched.
  induction clusters as [|clstr clusters IH]; intros [|backups fetched]; cbn;
    try constructor; [by intros [] | apply IH].
Qed.

Lemma run_check_lookup_failed world check acct region part st e :
  value (describe_clusters world st) = inl e ->
  run_check world check acct region part st =
  MkRun [] (inl e) (final (describe_clusters world st)).
Proof.
  intros Hlookup. destruct check; cbn.
  - by rewrite cluster_degradation_run, Hlookup.
  - by rewrite hsm_degradation_run, Hlookup.
  - by rewrite cluster_backup_run, Hlookup.
Qed.

(** C9. Whenever a provider call made during an invocation of a check comes
    back with an exception, the invocation ends right there and with that
    very exception.  If the call was [describe_clusters], nothing was
    yielded.  If it was the [describe_backups] call for a cluster, the
    findings yielded are those of the clusters before it in the list, one
    each, and none for that cluster or a later one. *)
Theorem C9_provider_error_propagates world check acct region part st before ev after e :
  trace (final (run_check world check acct region part st)) =
    trace st ++ before ++ ev :: after ->
  raised_by ev = Some e ->
  value (run_check world check acct region part st) = inl e
  ∧ after = []
  ∧ match ev with
    | EvDescribeClusters _ => yielded (run_check world check acct region part st) = []
    | EvDescribeBackups clusterIds _ =>
        ∃ snapshot clstr,
          value (describe_clusters world st) = inr snapshot
          ∧ Clusters snapshot
              !! length (yielded (run_check world check acct region part st)) = Some clstr
          ∧ clusterIds = [Cluster.ClusterId clstr]
          ∧ Forall2
              (fun earlier finding => Finding.GeneratorId finding = Cluster.ClusterId earlier)
              (take (length (yielded (run_check world check acct region part st)))
                 (Clusters snapshot))
              (yielded (run_check world check acct region part st))
    | EvNow _ => True
    end.
Proof.
  intros Htrace Hraised.
  pose proof (describe_clusters_events world st) as Hlookup_events.
  destruct (value (describe_clusters world st)) as [e'|snapshot] eqn:Hlookup.
  - rewrite (run_check_lookup_failed _ _ _ _ _ _ _ Hlookup) in *. cbn in *.
    rewrite Hlookup_events in Htrace. apply app_inv_head in Htrace.
    destruct before as [|b [|b' before]]; cbn in Htrace; try done.
    injection Htrace as <- <-. cbn in Hraised. injection Hraised as ->. done.
  - destruct (run_check_events world check acct region part st snapshot Hlookup)
      as (fetched & tail & Hevents & Hlen & Hyield & Hend).
    assert (∃ lookup_events,
              trace (final (describe_clusters world st)) = trace st ++ lookup_events
              ∧ Forall (fun ev => ¬ raised_by ev ≠ None) lookup_events)
      as (lookup_events & Hlookup_trace & Hlookup_calm).
    { destruct Hlookup_events as [Hev|Hev]; eexists; (split; [exact Hev|]).
      - constructor.
      - repeat constructor. by intros []. }
    rewrite Hevents, Hlookup_trace, <- !app_assoc in Htrace.
    apply app_inv_head in Htrace.
    change (lookup_events ++ EvNow (stamp world st)
              :: zip_with backups_fetched (Clusters snapshot) fetched ++ tail)
      with (lookup_events ++ ([EvNow (stamp world st)]
              ++ zip_with backups_fetched (Clusters snapshot) fetched) ++ tail) in Htrace.
    rewrite app_assoc in Htrace. symmetry in Htrace.
    apply (split_after_calm (fun ev => raised_by ev ≠ None)) in Htrace
      as (rest & Hbefore & Htail).
    2: { apply Forall_app. split; [done|]. apply Forall_app. split.
         - repeat constructor. by intros [].
         - apply backups_fetched_calm. }
    2: { by rewrite Hraised. }
    destruct (value (run_check _ _ _ _ _ _)) as [e'|[]].
    + destruct Hend as (-> & clstr & Hat & ->).
      destruct rest as [|r [|r' rest]]; cbn in Htail; try done.
      injection Htail as <- <-. cbn in Hraised. injection Hraised as ->.
      split; [done|]. split; [done|].
      exists snapshot, clstr. rewrite Hlen. split_and!; try done.
      rewrite (Hyield eq_refl). apply Forall2_take_zip_with.
      * apply lookup_lt_Some in Hat. lia.
      * intros earlier backups. unfold cluster_backup_finding. by case_decide.
    + subst tail. by destruct rest.
Qed.

Lemma C9_witness :
  value (run_check denied_world ClusterBackup "111122223333" "us-east-1" "aws" new_pass)
    = inl (ProviderError "AccessDeniedException")
  ∧ @nil Event = []
  ∧ ∃ snapshot clstr,
      value (describe_clusters denied_world new_pass) = inr snapshot
      ∧ Clusters snapshot
          !! length (yielded (run_check denied_world ClusterBackup
                                "111122223333" "us-east-1" "aws" new_pass)) = Some clstr
      ∧ ["c2"] = [Cluster.ClusterId clstr]
      ∧ Forall2
          (fun earlier finding => Finding.GeneratorId finding = Cluster.ClusterId earlier)
          (take (length (yielded (run_check denied_world ClusterBackup
                                    "111122223333" "us-east-1" "aws" new_pass)))
             (Clusters snapshot))
          (yielded (run_check denied_world ClusterBackup
                      "111122223333" "us-east-1" "aws" new_pass)).
Proof.
  apply (C9_provider_error_propagates
           denied_world ClusterBackup "111122223333" "us-east-1" "aws" new_pass
           [ EvDescribeClusters
               (inr {| Clusters := [Cluster.mk "c1" "ACTIVE" []; Cluster.mk "c2" "ACTIVE" []] |});
             EvNow "2021-05-01T00:00:00+00:00";
             EvDescribeBackups ["c1"] (inr {| Backups := [Backup.mk "c1" "READY"] |}) ]
           (EvDescribeBackups ["c2"] (inl (ProviderError "AccessDeniedException")))
           []
           (ProviderError "AccessDeniedException")).
  - vm_compute. reflexivity.
  - reflexivity.
Defined.

(** ** Running a check again *)

Lemma cluster_backup_loop_agree world1 world2 acct region part iso1 iso2 clusters st1 st2 :
  (∀ h1 h2 ids,
     cloudhsm_describe_backups world1 h1 ids = cloudhsm_describe_backups world2 h2 ids) ->
  erase_timestamps
    <$> yielded (for_each clusters (cluster_backup_body world1 acct region part iso1) st1)
  = erase_timestamps
    <$> yielded (for_each clusters (cluster_backup_body world2 acct region part iso2) st2)
  ∧ value (for_each clusters (cluster_backup_body world1 acct region part iso1) st1)
    = value (for_each clusters (cluster_backup_body world2 acct region part iso2) st2).
Proof.
  intros Hstable. revert st1 st2.
  induction clusters as [|clstr clusters IH]; intros st1 st2; [done|].
  rewrite !for_each_cons, !cluster_backup_body_run. cbn.
  rewrite (Hstable (trace st1) (trace st2)).
  destruct (cloudhsm_describe_backups world2 (trace st2) [Cluster.ClusterId clstr])
    as [e|backups]; cbn; [done|].
  destruct (IH (record (EvDescribeBackups [Cluster.ClusterId clstr] (inr backups)) st1)
               (record (EvDescribeBackups [Cluster.ClusterId clstr] (inr backups)) st2))
    as [-> ->].
  split; [|done]. f_equal. unfold cluster_backup_finding. by case_decide.
Qed.

(** Two invocations of a check that look up the same snapshot, under
    providers that list the same backups, yield findings that differ in
    their timestamps at most, and end alike. *)
Lemma same_snapshot_same_findings
    world1 world2 check acct region part st1 st2 snapshot :
  value (describe_clusters world1 st1) = inr snapshot ->
  value (describe_clusters world2 st2) = inr snapshot ->
  (check = ClusterBackup ->
   ∀ h1 h2 ids,
     cloudhsm_describe_backups world1 h1 ids = cloudhsm_describe_backups world2 h2 ids) ->
  erase_timestamps <$> yielded (run_check world1 check acct region part st1)
  = erase_timestamps <$> yielded (run_check world2 check acct region part st2)
  ∧ value (run_check world1 check acct region part st1)
    = value (run_check world2 check acct region part st2).
Proof.
  intros Hlookup1 Hlookup2 Hstable. destruct check; cbn.
  - rewrite !cluster_degradation_run, Hlookup1, Hlookup2. cbn. split; [|done].
    rewrite <- !list_fmap_compose. apply list_fmap_ext. intros _ clstr _.
    unfold compose, cluster_degradation_finding. by case_decide.
  - rewrite !hsm_degradation_run, Hlookup1, Hlookup2. cbn. split; [|done].
    rewrite !concat_fmap_fmap, <- !list_fmap_compose. apply list_fmap_ext. intros _ hsm _.
    unfold compose, hsm_degradation_finding. by case_decide.
  - rewrite !cluster_backup_run, Hlookup1, Hlookup2.
    by apply cluster_backup_loop_agree, Hstable.
Qed.

(** C8. Run a check whose lookup succeeds, then run the same check again on
    the cache and history the first run left, with the same account, region
    and partition, under a provider whose backup lists do not change: the
    second run yields the same findings as the first, field by field, up to
    [FirstObservedAt], [CreatedAt] and [UpdatedAt], and ends the same way. *)
Theorem C8_rerun_yields_same_findings world check acct region part st snapshot :
  value (describe_clusters world st) = inr snapshot ->
  (check = ClusterBackup ->
   ∀ h1 h2 ids,
     cloudhsm_describe_backups world h1 ids = cloudhsm_describe_backups world h2 ids) ->
  let first := run_check world check acct region part st in
  let second := run_check world check acct region part (final first) in
  erase_timestamps <$> yielded first = erase_timestamps <$> yielded second
  ∧ value first = value second.
Proof.
  intros Hlookup Hstable first second.
  apply (same_snapshot_same_findings world world check acct region part st (final first)
           snapshot); [done| |done].
  assert (cache (final first) !! "describe_clusters" = Some snapshot) as Hhit.
  { subst first.
    destruct (run_check_final world check acct region part st) as [-> _].
    by apply describe_clusters_stores. }
  by rewrite (describe_clusters_hit _ _ _ Hhit).
Qed.

Lemma C8_witness :
  let first :=
    run_check example_world ClusterBackup "111122223333" "us-east-1" "aws" new_pass in
  let second :=
    run_check example_world ClusterBackup "111122223333" "us-east-1" "aws" (final first) in
  erase_timestamps <$> yielded first = erase_timestamps <$> yielded second
  ∧ value first = value second.
Proof.
  apply (C8_rerun_yields_same_findings
           example_world ClusterBackup "111122223333" "us-east-1" "aws" new_pass
           example_snapshot).
  - vm_compute. reflexivity.
  - intros _ h1 h2 ids. reflexivity.
Defined.

(** In the worked input the two runs do differ in their timestamps. *)
Example rerun_changes_timestamps :
  let first :=
    run_check example_world ClusterBackup "111122223333" "us-east-1" "aws" new_pass in
  let second :=
    run_check example_world ClusterBackup "111122223333" "us-east-1" "aws" (final first) in
  Finding.CreatedAt <$> yielded first = ["2021-05-01T00:00:01+00:00"]
  ∧ Finding.CreatedAt <$> yielded second = ["2021-05-01T00:00:03+00:00"].
Proof. vm_compute. done. Qed.

(** * Further properties of the code *)

(** ** The lookup *)

(** X1. What [describe_clusters(cache)] does.  With an entry in the cache it
    returns that entry, calls nothing and changes nothing.  Without one it
    issues exactly one provider call and hands on its outcome as it is, a
    response or the exception; it stores the response, and only a response,
    under "describe_clusters". *)
Theorem X1_describe_clusters_contract world st :
  match cache st !! "describe_clusters" with
  | Some stored => describe_clusters world st = MkRun [] (inr stored) st
  | None =>
      yielded (describe_clusters world st) = []
      ∧ value (describe_clusters world st) = cloudhsm_describe_clusters world (trace st)
      ∧ trace (final (describe_clusters world st)) =
          trace st ++ [EvDescribeClusters (cloudhsm_describe_clusters world (trace st))]
      ∧ cache (final (describe_clusters world st)) =
          match cloudhsm_describe_clusters world (trace st) with
          | inr fetched => <["describe_clusters" := fetched]> (cache st)
          | inl _ => cache st
          end
  end.
Proof.
  destruct (cache st !! "describe_clusters") as [stored|] eqn:Hget.
  - by apply describe_clusters_hit.
  - rewrite (describe_clusters_miss _ _ Hget). cbn.
    by destruct (cloudhsm_describe_clusters world (trace st)).
Qed.

(** The lookup changes the cache in one way at most: it adds the fetched
    response when there was no entry. *)
Lemma describe_clusters_cache world st :
  cache (final (describe_clusters world st)) = cache st
  ∨ (cache st !! "describe_clusters" = None
     ∧ ∃ fetched,
         cloudhsm_describe_clusters world (trace st) = inr fetched
         ∧ cache (final (describe_clusters world st)) =
             <["describe_clusters" := fetched]> (cache st)).
Proof.
  destruct (cache st !! "describe_clusters") as [stored|] eqn:Hget.
  - left. by rewrite (describe_clusters_hit _ _ _ Hget).
  - rewrite (describe_clusters_miss _ _ Hget). cbn.
    destruct (cloudhsm_describe_clusters world (trace st)) as [e|fetched] eqn:Hanswer; cbn.
    + by left.
    + right. split; [done|]. by exists fetched.
Qed.

(** X2. A check changes the shared cache in one way at most: when the cache
    had no "describe_clusters" entry and the provider answered, it adds that
    answer.  It never removes or replaces an entry, and never touches
    another key; the backups Rule C fetches are not cached. *)
Theorem X2_check_only_adds_the_clusters_entry world check acct region part st :
  (cache (final (run_check world check acct region part st)) = cache st
   ∨ (cache st !! "describe_clusters" = None
      ∧ ∃ fetched,
          cloudhsm_describe_clusters world (trace st) = inr fetched
          ∧ cache (final (run_check world check acct region part st)) =
              <["describe_clusters" := fetched]> (cache st)))
  ∧ cache st ⊆ cache (final (run_check world check acct region part st))
  ∧ ∀ key, key ≠ "describe_clusters" ->
      cache (final (run_check world check acct region part st)) !! key = cache st !! key.
Proof.
  destruct (run_check_final world check acct region part st) as [-> _].
  destruct (describe_clusters_cache world st) as [->|(Hmiss & fetched & Hanswer & ->)].
  - split_and!; [by left|done|done].
  - split_and!.
    + right. split; [done|]. by exists fetched.
    + by apply insert_subseteq.
    + intros key Hkey. by rewrite lookup_insert_ne.
Qed.

(** ** How an invocation ends *)

Lemma backups_fetched_raise_nothing clusters fetched :
  Forall (fun ev => raised_by ev = None) (zip_with backups_fetched clusters fetched).
Proof.
  revert fetched.
  induction clusters as [|clstr clusters IH]; intros [|backups fetched]; cbn;
    try constructor; [done | apply IH].
Qed.

(** X3. A check raises only what the provider raised: when an invocation
    ends with an exception, the last event of the invocation is a provider
    call that came back with that very exception, and no call before it in
    the invocation had failed.  In particular the [cache[...]] read of the
    lookup never raises. *)
Theorem X3_check_raises_only_what_the_provider_raised
    world check acct region part st e :
  value (run_check world check acct region part st) = inl e ->
  ∃ before ev,
    trace (final (run_check world check acct region part st)) = trace st ++ before ++ [ev]
    ∧ raised_by ev = Some e
    ∧ Forall (fun earlier => raised_by earlier = None) before.
Proof.
  intros Hraised.
  pose proof (describe_clusters_events world st) as Hlookup_events.
  destruct (value (describe_clusters world st)) as [e'|snapshot] eqn:Hlookup.
  - rewrite (run_check_lookup_failed _ _ _ _ _ _ _ Hlookup) in *. cbn in *.
    injection Hraised as ->. exists [], (EvDescribeClusters (inl e)). by split_and!.
  - destruct (run_check_events world check acct region part st snapshot Hlookup)
      as (fetched & tail & Hevents & _ & _ & Hend).
    rewrite Hraised in Hend. destruct Hend as (_ & clstr & _ & ->).
    assert (∃ lookup_events,
              trace (final (describe_clusters world st)) = trace st ++ lookup_events
              ∧ Forall (fun ev => raised_by ev = None) lookup_events)
      as (lookup_events & Hlookup_trace & Hlookup_calm).
    { destruct Hlookup_events as [Hev|Hev]; eexists; (split; [exact Hev|]);
        by repeat constructor. }
    exists (lookup_events ++ EvNow (stamp world st)
              :: zip_with backups_fetched (Clusters snapshot) fetched),
      (EvDescribeBackups [Cluster.ClusterId clstr] (inl e)).
    split_and!; [|done|].
    + rewrite Hevents, Hlookup_trace, <- !app_assoc. cbn. by rewrite <- ?app_assoc.
    + apply Forall_app. split; [done|]. constructor; [done|].
      apply backups_fetched_raise_nothing.
Qed.

Lemma X3_witness :
  ∃ before ev,
    trace (final (run_check denied_world ClusterBackup "111122223333" "us-east-1" "aws"
                    new_pass)) = trace new_pass ++ before ++ [ev]
    ∧ raised_by ev = Some (ProviderError "AccessDeniedException")
    ∧ Forall (fun earlier => raised_by earlier = None) before.
Proof.
  apply (X3_check_raises_only_what_the_provider_raised
           denied_world ClusterBackup "111122223333" "us-east-1" "aws" new_pass
           (ProviderError "AccessDeniedException")).
  vm_compute. reflexivity.
Defined.

(** X4. Rules A and B need nothing but the cluster list: once the lookup
    has succeeded they read the clock, make no further provider call, in
    particular no [describe_backups] call, and always run to their end. *)
Theorem X4_degradation_checks_complete world check acct region part st snapshot :
  check ≠ ClusterBackup ->
  value (describe_clusters world st) = inr snapshot ->
  value (run_check world check acct region part st) = inr tt
  ∧ trace (final (run_check world check acct region part st)) =
      trace (final (describe_clusters world st))
      ++ [EvNow (datetime_now_isoformat world (trace (final (describe_clusters world st))))].
Proof.
  intros Hcheck Hlookup. destruct check; cbn; [| |done].
  - by rewrite cluster_degradation_run, Hlookup.
  - by rewrite hsm_degradation_run, Hlookup.
Qed.

Lemma X4_witness :
  value (run_check example_world HsmDegradation "111122223333" "us-east-1" "aws" new_pass)
    = inr tt
  ∧ trace (final (run_check example_world HsmDegradation "111122223333" "us-east-1" "aws"
                    new_pass)) =
      trace (final (describe_clusters example_world new_pass))
      ++ [EvNow (datetime_now_isoformat example_world
                   (trace (final (describe_clusters example_world new_pass))))].
Proof.
  apply (X4_degradation_checks_complete
           example_world HsmDegradation "111122223333" "us-east-1" "aws" new_pass
           example_snapshot).
  - done.
  - vm_compute. reflexivity.
Defined.

(** X5. On an account without clusters each of the three checks yields
    nothing and ends normally; after the lookup it only reads the clock, so
    Rule C issues no [describe_backups] call. *)
Theorem X5_no_clusters_no_findings world check acct region part st snapshot :
  value (describe_clusters world st) = inr snapshot ->
  Clusters snapshot = [] ->
  yielded (run_check world check acct region part st) = []
  ∧ value (run_check world check acct region part st) = inr tt
  ∧ trace (final (run_check world check acct region part st)) =
      trace (final (describe_clusters world st))
      ++ [EvNow (datetime_now_isoformat world (trace (final (describe_clusters world st))))].
Proof.
  intros Hlookup Hnone. destruct check; cbn.
  - by rewrite cluster_degradation_run, Hlookup, Hnone.
  - by rewrite hsm_degradation_run, Hlookup, Hnone.
  - by rewrite cluster_backup_run, Hlookup, Hnone.
Qed.

Lemma X5_witness :
  yielded (run_check empty_world ClusterBackup "111122223333" "us-east-1" "aws" new_pass) = []
  ∧ value (run_check empty_world ClusterBackup "111122223333" "us-east-1" "aws" new_pass)
    = inr tt
  ∧ trace (final (run_check empty_world ClusterBackup "111122223333" "us-east-1" "aws"
                    new_pass)) =
      trace (final (describe_clusters empty_world new_pass))
      ++ [EvNow (datetime_now_isoformat empty_world
                   (trace (final (describe_clusters empty_world new_pass))))].
Proof.
  apply (X5_no_clusters_no_findings
           empty_world ClusterBackup "111122223333" "us-east-1" "aws" new_pass
           {| Clusters := [] |}).
  - vm_compute. reflexivity.
  - reflexivity.
Defined.

(** ** What every finding holds *)

(** Every finding a check yields is one of its two literals, filled in with
    the arguments of the call, the stamp of the invocation and a resource id. *)
Lemma findings_are_literals world check acct region part st :
  Forall
    (fun finding =>
       ∃ id,
         finding = passing_literal check acct region part (stamp world st) id
         ∨ finding = failing_literal check acct region part (stamp world st) id)
    (yielded (run_check world check acct region part st)).
Proof.
  destruct check; cbn.
  - rewrite cluster_degradation_run.
    destruct (value (describe_clusters world st)); cbn; [constructor|].
    apply Forall_fmap, Forall_forall. intros clstr _.
    unfold compose, cluster_degradation_finding. exists (Cluster.ClusterId clstr).
    case_decide; [by left | by right].
  - rewrite hsm_degradation_run.
    destruct (value (describe_clusters world st)); cbn; [constructor|].
    rewrite concat_fmap_fmap.
    apply Forall_fmap, Forall_forall. intros hsm _.
    unfold compose, hsm_degradation_finding. exists (Hsm.HsmId hsm).
    case_decide; [by left | by right].
  - rewrite cluster_backup_run.
    destruct (value (describe_clusters world st)) as [e|snapshot]; cbn; [constructor|].
    destruct (cluster_backup_loop_run world acct region part (stamp world st)
                (Clusters snapshot) (loop_start world st)) as (fetched & -> & _).
    generalize (Clusters snapshot) as clusters. intros clusters. revert fetched.
    induction clusters as [|clstr clusters IH]; intros [|backups fetched]; cbn;
      try constructor; [|apply IH].
    unfold cluster_backup_finding. exists (Cluster.ClusterId clstr).
    case_decide; [by left | by right].
Qed.

(** X6. Whatever the check, the resource and the outcome, a finding carries
    the schema version 2018-10-08, the account id it was called with, the
    product ARN built from partition, region and account, the one finding
    type, confidence 99, the product name ElectricEye and the same fourteen
    related requirements. *)
Theorem X6_finding_envelope world check acct region part st :
  Forall
    (fun finding =>
       Finding.SchemaVersion finding = "2018-10-08"
       ∧ Finding.AwsAccountId finding = acct
       ∧ Finding.ProductArn finding =
           "arn:" +:+ part +:+ ":securityhub:" +:+ region +:+ ":" +:+ acct
           +:+ ":product/" +:+ acct +:+ "/default"
       ∧ Finding.Types finding =
           ["Software and Configuration Checks/AWS Security Best Practices"]
       ∧ Finding.Confidence finding = 99%Z
       ∧ Finding.ProductFields_Product_Name finding = "ElectricEye"
       ∧ Finding.Compliance_RelatedRequirements finding = related_requirements
       ∧ length (Finding.Compliance_RelatedRequirements finding) = 14)
    (yielded (run_check world check acct region part st)).
Proof.
  eapply Forall_impl; [apply findings_are_literals|].
  intros finding (id & [-> | ->]); by destruct check.
Qed.

(** X7. A finding names exactly one resource: the one it is generated for,
    of the type of its check (a cluster for Rules A and C, an HSM for Rule
    B), in the partition and region the check was called with, and with the
    same id repeated in [Details]. *)
Theorem X7_finding_names_one_resource world check acct region part st :
  Forall
    (fun finding =>
       Finding.Resources finding =
         [ {| Resource.Type_ := resource_type check;
              Resource.Id := Finding.GeneratorId finding;
              Resource.Partition := part;
              Resource.Region := region;
              Resource.Details :=
                [(resource_type check,
                  [(resource_key check, Finding.GeneratorId finding)])] |} ])
    (yielded (run_check world check acct region part st)).
Proof.
  eapply Forall_impl; [apply findings_are_literals|].
  intros finding (id & [-> | ->]); by destruct check.
Qed.

(** X8. Title, remediation text and remediation URL belong to the check
    alone: any two findings of one check agree on them, whatever the
    provider, the arguments, the resource and the outcome. *)
Theorem X8_title_and_remediation_per_check
    world1 world2 check acct1 region1 part1 acct2 region2 part2 st1 st2 finding1 finding2 :
  finding1 ∈ yielded (run_check world1 check acct1 region1 part1 st1) ->
  finding2 ∈ yielded (run_check world2 check acct2 region2 part2 st2) ->
  Finding.Title finding1 = Finding.Title finding2
  ∧ Finding.Remediation_Recommendation_Text finding1 =
      Finding.Remediation_Recommendation_Text finding2
  ∧ Finding.Remediation_Recommendation_Url finding1 =
      Finding.Remediation_Recommendation_Url finding2.
Proof.
  intros Hin1 Hin2.
  pose proof (findings_are_literals world1 check acct1 region1 part1 st1) as Hlit1.
  pose proof (findings_are_literals world2 check acct2 region2 part2 st2) as Hlit2.
  rewrite Forall_forall in Hlit1, Hlit2.
  destruct (Hlit1 _ Hin1) as (id1 & [-> | ->]), (Hlit2 _ Hin2) as (id2 & [-> | ->]);
    by destruct check.
Qed.

Lemma X8_witness :
  Finding.Title
    (cluster_backup_passing "111122223333" "us-east-1" "aws" "2021-05-01T00:00:01+00:00" "c1")
  = Finding.Title
      (cluster_backup_failing "999999999999" "eu-west-1" "aws-cn" "2021-05-01T00:00:00+00:00"
         "c2")
  ∧ Finding.Remediation_Recommendation_Text
      (cluster_backup_passing "111122223333" "us-east-1" "aws" "2021-05-01T00:00:01+00:00" "c1")
    = Finding.Remediation_Recommendation_Text
        (cluster_backup_failing "999999999999" "eu-west-1" "aws-cn"
           "2021-05-01T00:00:00+00:00" "c2")
  ∧ Finding.Remediation_Recommendation_Url
      (cluster_backup_passing "111122223333" "us-east-1" "aws" "2021-05-01T00:00:01+00:00" "c1")
    = Finding.Remediation_Recommendation_Url
        (cluster_backup_failing "999999999999" "eu-west-1" "aws-cn"
           "2021-05-01T00:00:00+00:00" "c2").
Proof.
  apply (X8_title_and_remediation_per_check
           example_world no_backup_world ClusterBackup
           "111122223333" "us-east-1" "aws" "999999999999" "eu-west-1" "aws-cn"
           new_pass new_pass).
  - vm_compute. left.
  - vm_compute. left.
Defined.

(** ** Ids across findings *)

Lemma list_ascii_of_string_app (a b : string) :
  String.list_ascii_of_string (a +:+ b) =
  String.list_ascii_of_string a ++ String.list_ascii_of_string b.
Proof.
  induction a as [|c a IH]; [done|].
  change (String c a +:+ b) with (String c (a +:+ b)). cbn. by rewrite IH.
Qed.

Lemma list_ascii_of_string_inj (a b : string) :
  String.list_ascii_of_string a = String.list_ascii_of_string b -> a = b.
Proof.
  intros Heq.
  rewrite <- (String.string_of_list_ascii_of_string a),
    <- (String.string_of_list_ascii_of_string b).
  by rewrite Heq.
Qed.

(** Appending one and the same suffix keeps different strings apart. *)
Lemma append_suffix_inj (a b suffix : string) :
  a +:+ suffix = b +:+ suffix -> a = b.
Proof.
  intros Heq. apply list_ascii_of_string_inj.
  apply (f_equal String.list_ascii_of_string) in Heq.
  rewrite !list_ascii_of_string_app in Heq.
  by apply app_inj_2 in Heq as [-> _].
Qed.

(** No string ends both in the slug of the degradation checks and in the
    slug of the backup check: read from the end, the two slugs part at the
    seventh character. *)
Lemma slugs_never_meet (a b : string) :
  a +:+ "/cloudhsm-cluster-degradation-check" ≠ b +:+ "/cloudhsm-cluster-backup-check".
Proof.
  intros Heq. apply (f_equal String.list_ascii_of_string) in Heq.
  rewrite !list_ascii_of_string_app in Heq.
  apply (f_equal reverse) in Heq. rewrite !reverse_app in Heq.
  cbn in Heq. discriminate Heq.
Qed.

(** X9. Among findings of one check, or of two checks that sign with the
    same slug as Rules A and B do, two findings have the same [Id] exactly
    when they are about the same resource id. *)
Theorem X9_same_slug_same_id_iff_same_resource
    world1 world2 check1 check2 acct1 region1 part1 acct2 region2 part2 st1 st2
    finding1 finding2 :
  rule_slug check1 = rule_slug check2 ->
  finding1 ∈ yielded (run_check world1 check1 acct1 region1 part1 st1) ->
  finding2 ∈ yielded (run_check world2 check2 acct2 region2 part2 st2) ->
  Finding.Id finding1 = Finding.Id finding2
  ↔ Finding.GeneratorId finding1 = Finding.GeneratorId finding2.
Proof.
  intros Hslug Hin1 Hin2.
  pose proof (finding_id_is_resource_id_and_slug world1 check1 acct1 region1 part1 st1) as Hid1.
  pose proof (finding_id_is_resource_id_and_slug world2 check2 acct2 region2 part2 st2) as Hid2.
  rewrite Forall_forall in Hid1, Hid2.
  destruct (Hid1 _ Hin1) as [-> _], (Hid2 _ Hin2) as [-> _]. rewrite Hslug.
  split; [apply append_suffix_inj | by intros ->].
Qed.

Lemma X9_witness :
  Finding.Id
    (cluster_degradation_passing "111122223333" "us-east-1" "aws" "2021-05-01T00:00:01+00:00"
       "c1")
  = Finding.Id
      (hsm_degradation_passing "999999999999" "eu-west-1" "aws-cn" "2021-05-01T00:00:00+00:00"
         "h2")
  ↔ Finding.GeneratorId
      (cluster_degradation_passing "111122223333" "us-east-1" "aws"
         "2021-05-01T00:00:01+00:00" "c1")
    = Finding.GeneratorId
        (hsm_degradation_passing "999999999999" "eu-west-1" "aws-cn"
           "2021-05-01T00:00:00+00:00" "h2").
Proof.
  apply (X9_same_slug_same_id_iff_same_resource
           example_world no_backup_world ClusterDegradation HsmDegradation
           "111122223333" "us-east-1" "aws" "999999999999" "eu-west-1" "aws-cn"
           new_pass new_pass).
  - reflexivity.
  - vm_compute. left.
  - vm_compute. left.
Defined.

(** X10. A finding of the backup check never has the [Id] of a finding of
    one of the degradation checks, whatever the resource ids are: checks
    with different slugs cannot collide. *)
Theorem X10_different_slugs_never_collide
    world1 world2 check1 check2 acct1 region1 part1 acct2 region2 part2 st1 st2
    finding1 finding2 :
  rule_slug check1 ≠ rule_slug check2 ->
  finding1 ∈ yielded (run_check world1 check1 acct1 region1 part1 st1) ->
  finding2 ∈ yielded (run_check world2 check2 acct2 region2 part2 st2) ->
  Finding.Id finding1 ≠ Finding.Id finding2.
Proof.
  intros Hslug Hin1 Hin2.
  pose proof (finding_id_is_resource_id_and_slug world1 check1 acct1 region1 part1 st1) as Hid1.
  pose proof (finding_id_is_resource_id_and_slug world2 check2 acct2 region2 part2 st2) as Hid2.
  rewrite Forall_forall in Hid1, Hid2.
  destruct (Hid1 _ Hin1) as [-> _], (Hid2 _ Hin2) as [-> _].
  destruct check1, check2; cbn in *; try done;
    first [apply slugs_never_meet | apply not_eq_sym, slugs_never_meet].
Qed.

Lemma X10_witness :
  Finding.Id
    (cluster_degradation_passing "111122223333" "us-east-1" "aws" "2021-05-01T00:00:01+00:00"
       "c1")
  ≠ Finding.Id
      (cluster_backup_passing "111122223333" "us-east-1" "aws" "2021-05-01T00:00:01+00:00"
         "c1").
Proof.
  apply (X10_different_slugs_never_collide
           example_world example_world ClusterDegradation ClusterBackup
           "111122223333" "us-east-1" "aws" "111122223333" "us-east-1" "aws"
           new_pass new_pass).
  - vm_compute. discriminate.
  - vm_compute. left.
  - vm_compute. left.
Defined.

(** ** What the rules do not look at *)

(** X11. Rule B reads the id of the cluster an HSM belongs to but does not
    use it: two invocations whose snapshots list the same HSMs in the same
    order, grouped into clusters in whatever way, yield the same findings up
    to the timestamps. *)
Theorem X11_hsm_findings_ignore_the_clusters
    world1 world2 acct region part st1 st2 snapshot1 snapshot2 :
  value (describe_clusters world1 st1) = inr snapshot1 ->
  value (describe_clusters world2 st2) = inr snapshot2 ->
  concat (Cluster.Hsms <$> Clusters snapshot1) = concat (Cluster.Hsms <$> Clusters snapshot2) ->
  erase_timestamps <$> yielded (cloudhsm_hsm_degradation_check world1 acct region part st1)
  = erase_timestamps <$> yielded (cloudhsm_hsm_degradation_check world2 acct region part st2).
Proof.
  intros Hlookup1 Hlookup2 Hsame.
  rewrite !hsm_degradation_run, Hlookup1, Hlookup2. cbn.
  rewrite !concat_fmap_fmap, Hsame, <- !list_fmap_compose.
  apply list_fmap_ext. intros _ hsm _.
  unfold compose, hsm_degradation_finding. by case_decide.
Qed.

Lemma X11_witness :
  erase_timestamps
    <$> yielded (cloudhsm_hsm_degradation_check one_cluster_two_hsms
                   "111122223333" "us-east-1" "aws" new_pass)
  = erase_timestamps
    <$> yielded (cloudhsm_hsm_degradation_check two_clusters_one_hsm_each
                   "111122223333" "us-east-1" "aws" new_pass).
Proof.
  apply (X11_hsm_findings_ignore_the_clusters
           one_cluster_two_hsms two_clusters_one_hsm_each
           "111122223333" "us-east-1" "aws" new_pass new_pass
           {| Clusters :=
                [Cluster.mk "c1" "ACTIVE" [Hsm.mk "h1" "DEGRADED"; Hsm.mk "h2" "ACTIVE"]] |}
           {| Clusters :=
                [Cluster.mk "c1" "ACTIVE" [Hsm.mk "h1" "DEGRADED"];
                 Cluster.mk "c2" "DEGRADED" [];
                 Cluster.mk "c3" "ACTIVE" [Hsm.mk "h2" "ACTIVE"]] |}).
  - vm_compute. reflexivity.
  - vm_compute. reflexivity.
  - reflexivity.
Defined.

(** ** A pass without failures *)

Lemma X12_witness :
  describe_clusters_calls
    (trace (audit_pass example_world "111122223333" "us-east-1" "aws"
              [ClusterBackup; HsmDegradation; ClusterBackup; ClusterDegradation] new_pass)) ≤ 1.
Proof.
  apply (at_most_one_call_when_none_raises example_world "111122223333" "us-east-1" "aws"
           [ClusterBackup; HsmDegradation; ClusterBackup; ClusterDegradation]).
  vm_compute. repeat constructor.
Defined.
